(** * Batoko Chautari: the weather module of [static/js/main.js]

    A shallow embedding of [BatokoChautari.modules.weather] (the cache in
    front of [/api/weather/{lat}/{lon}], the widget renderer and the periodic
    refresh) together with the part of the JavaScript run time the module
    leans on: truthiness, property reads, string conversion inside template
    literals, promise reactions and the event loop.

    Conventions.
    - Strings are sequences of bytes (UTF-8); the literal parts of the
      templates are the bytes of the source file.
    - [Date.now()] is an integer number of milliseconds ([Z]); it is constant
      while one task runs and is moved by the environment between tasks.
    - JavaScript numbers are kept abstract (class [JSNumber]): the module only
      converts them to strings, tests them for truthiness and compares one of
      them with zero.
    - The document is the list of the weather widgets of the page; the markup
      written into a widget is text, it is not parsed back into elements.
      The widgets are therefore taken to lie outside one another, and the
      payloads to bring no markup of a widget with them: in the browser a
      write to [innerHTML] also takes the widgets inside the element out of
      the page, and adds those that the markup describes.

    The rest of the page follows the weather module: the utilities
    ([debounce], [throttle], [isValidEmail], [sanitizeHtml], [getCookie]),
    the notifications, the validation of files and of forms. There a string
    is the sequence of its UTF-16 code units, since that code measures,
    splits and matches strings. *)

From stdpp Require Import gmap strings pretty list fin_maps.
From Stdlib Require Import Ascii ZArith Lia.

Local Open Scope string_scope.
Local Open Scope Z_scope.

(** ** Numbers *)

(** The operations of ECMAScript on Number values that the module reaches. *)
Class JSNumber (number : Type) := {
  (** the global [parseFloat], applied to a [data-*] attribute *)
  parseFloat : string → number;
  (** [Number::toString(x, 10)], the conversion inside a template literal *)
  Number_toString : number → string;
  (** [ToBoolean] on a Number: false for [+0], [-0] and [NaN] *)
  Number_ToBoolean : number → bool;
  (** [StringToNumber], the conversion of a String operand of [>] *)
  StringToNumber : string → number;
  (** the comparison [x > 0] *)
  Number_gt_zero : number → bool
}.

(** ** Completions *)

(** What a rejected promise or a [throw] carries. *)
Inductive error :=
| TypeError      (* a property read on null/undefined, a call of a non-function,
                    an object without primitive value *)
| SyntaxError    (* [response.json()] on a body that is not JSON *)
| FetchFailed.   (* [fetch] rejected: no response was received *)

(** The result of evaluating an expression: a value or an abrupt completion. *)
Inductive completion (A : Type) :=
| Normal (a : A)
| Throw (e : error).
Arguments Normal {A} a.
Arguments Throw {A} e.

#[global] Instance completion_ret : MRet completion := @Normal.

#[global] Instance completion_bind : MBind completion := λ A B k c,
  match c with
  | Normal a => k a
  | Throw e => Throw e
  end.

#[global] Instance error_eq_dec : EqDecision error.
Proof. solve_decision. Defined.

(** ** HTML text *)

(** The double quote, which a string literal of this file cannot hold. *)
Definition dquote : ascii := "034"%char.

(** [html s] is [s] with every apostrophe replaced by a double quote: the
    markup of main.js is written below with ['] where the source has the
    double quote (the source's markup contains no apostrophe). *)
Fixpoint html (s : string) : string :=
  match s with
  | EmptyString => EmptyString
  | String c s' => String (if Ascii.eqb c "'"%char then dquote else c) (html s')
  end.

(** [widget.innerHTML = '<p class="text-muted">Weather data unavailable</p>'] *)
Definition unavailable : string :=
  html "<p class='text-muted'>Weather data unavailable</p>".

Definition current_text_0 : string :=
  html "
            <div class='weather-current text-center mb-3'>
                <div class='d-flex align-items-center justify-content-center mb-2'>
                    <img src='https://openweathermap.org/img/wn/".

Definition current_text_1 : string :=
  html "@2x.png' 
                         alt='".

Definition current_text_2 : string :=
  html "' style='width: 50px;'>
                    <span class='weather-temp ms-2'>".

Definition current_text_3 : string :=
  html "Â°C</span>
                </div>
                <p class='weather-desc mb-1'>".

Definition current_text_4 : string :=
  html "</p>
                <div class='weather-details'>
                    <span>ðŸ’§ ".

Definition current_text_5 : string :=
  html "%</span>
                    <span>ðŸ’¨ ".

Definition current_text_6 : string :=
  html "m/s</span>
                </div>
            </div>
            ".

Definition forecast_open : string :=
  html "
                <div class='weather-forecast'>
                    ".

Definition day_text_0 : string :=
  html "
                        <div class='forecast-day'>
                            <small>".

Definition day_text_1 : string :=
  html "</small>
                            <img src='https://openweathermap.org/img/wn/".

Definition day_text_2 : string :=
  html ".png' 
                                 alt='Weather' style='width: 30px;'>
                            <small>".

Definition day_text_3 : string :=
  html "Â°/".

Definition day_text_4 : string :=
  html "Â°</small>
                        </div>
                    ".

Definition forecast_close : string :=
  html "
                </div>
            ".

Definition template_end : string :=
  html "
        ".

Section Weather.

Context {number : Type} `{!JSNumber number}.

(** ** Values *)

(** The values the module handles: what [response.json()] can produce (JSON
    has no functions, symbols or cycles), and [undefined], the result of
    reading an absent property. An object is the list of its members in the
    order of the JSON text. *)
#[warnings="-register-all"]
Inductive value :=
| Undefined
| Null
| Bool (b : bool)
| Num (n : number)
| Str (s : string)
| Arr (elements : list value)
| Obj (properties : list (string * value)).

(** The own property [k] of an object; of two members of one name,
    [JSON.parse] keeps the later. *)
Fixpoint GetOwnProperty (properties : list (string * value)) (k : string) : option value :=
  match properties with
  | [] => None
  | (k', v) :: rest =>
      match GetOwnProperty rest k with
      | Some v' => Some v'
      | None => if String.eqb k k' then Some v else None
      end
  end.

(** [ToBoolean]: what [!v], [v || w] and [if (v)] test. *)
Definition ToBoolean (v : value) : bool :=
  match v with
  | Undefined | Null => false
  | Bool b => b
  | Num n => Number_ToBoolean n
  | Str s => negb (String.eqb s "")
  | Arr _ | Obj _ => true
  end.

(** The property read [v.k], for a name [k] that no built-in prototype
    defines (every name main.js reads from weather data but [length] and
    [map], which are treated where they occur): an own property of an object,
    [undefined] on any other value but null and undefined, where the read
    throws. *)
Definition Get (v : value) (k : string) : completion value :=
  match v with
  | Undefined | Null => Throw TypeError
  | Obj properties => Normal (default Undefined (GetOwnProperty properties k))
  | Bool _ | Num _ | Str _ | Arr _ => Normal Undefined
  end.

(** [ToString], as a template literal applies it to a substitution. An array
    is joined with commas ([Array.prototype.join]: null and undefined elements
    count as empty). An object built by [JSON.parse] inherits
    [Object.prototype.toString], hence ["[object Object]"], unless an own
    property named [toString] (never callable, coming from JSON) hides it:
    then no primitive value is found and the conversion throws. *)
Fixpoint ToString (v : value) : completion string :=
  match v with
  | Undefined => Normal "undefined"
  | Null => Normal "null"
  | Bool b => Normal (if b then "true" else "false")
  | Num n => Normal (Number_toString n)
  | Str s => Normal s
  | Arr elements =>
      (fix join (l : list value) : completion string :=
         match l with
         | [] => Normal ""
         | x :: l' =>
             s ← match x with
                 | Undefined | Null => Normal ""
                 | _ => ToString x
                 end;
             match l' with
             | [] => Normal s
             | _ => r ← join l'; Normal (s +:+ "," +:+ r)
             end
         end) elements
  | Obj properties =>
      match GetOwnProperty properties "toString" with
      | Some _ => Throw TypeError
      | None => Normal "[object Object]"
      end
  end.

(** The comparison [v > 0]. Both operands are converted to numbers; an array
    or an object goes through its string conversion first ([valueOf] yields
    no primitive value for them). *)
Definition GreaterThanZero (v : value) : completion bool :=
  match v with
  | Undefined | Null => Normal false
  | Bool b => Normal b
  | Num n => Normal (Number_gt_zero n)
  | Str _ | Arr _ | Obj _ => s ← ToString v; Normal (Number_gt_zero (StringToNumber s))
  end.

(** The substitution [${v.k}] of a template literal. *)
Definition substitution (v : value) (k : string) : completion string :=
  x ← Get v k; ToString x.

(** ** renderWeather *)

(** A weather widget: an element carrying [data-weather-lat] and
    [data-weather-lon], and its content: the markup last assigned to
    [innerHTML], kept as text (the content the page came with, before any
    assignment). *)
Record Widget := {
  weatherLat : string;
  weatherLon : string;
  innerHTML : string
}.

Definition set_innerHTML (widget : Widget) (markup : string) : Widget :=
  {| weatherLat := weatherLat widget;
     weatherLon := weatherLon widget;
     innerHTML := markup |}.

(** [forecast.length > 0]: the length of a string or of an array, the own
    property [length] of an object, [undefined] on a boolean or a number. *)
Definition forecast_length_gt_zero (forecast : value) : completion bool :=
  match forecast with
  | Undefined | Null => Throw TypeError
  | Bool _ | Num _ => Normal false
  | Str s => Normal (negb (Nat.eqb (String.length s) 0))
  | Arr elements => Normal (negb (Nat.eqb (length elements) 0))
  | Obj properties => GreaterThanZero (default Undefined (GetOwnProperty properties "length"))
  end.

(** The inner template, the body of [day => `...`]. *)
Definition forecast_day (day : value) : completion string :=
  date ← substitution day "date";
  icon ← substitution day "icon";
  temp_max ← substitution day "temp_max";
  temp_min ← substitution day "temp_min";
  Normal (day_text_0 +:+ date +:+ day_text_1 +:+ icon +:+ day_text_2
          +:+ temp_max +:+ day_text_3 +:+ temp_min +:+ day_text_4).

(** [elements.map(f).join('')] on an array, [f] returning strings. *)
Fixpoint map_join (f : value → completion string) (elements : list value) : completion string :=
  match elements with
  | [] => Normal ""
  | x :: rest => s ← f x; r ← map_join f rest; Normal (s +:+ r)
  end.

(** [forecast.map(day => ...).join('')]: only an array has a callable [map]. *)
Definition forecast_days (forecast : value) : completion string :=
  match forecast with
  | Arr elements => map_join forecast_day elements
  | _ => Throw TypeError
  end.

(** The outer template of [renderWeather], substitutions left to right. *)
Definition weather_markup (current forecast : value) : completion string :=
  icon ← substitution current "icon";
  alt ← substitution current "description";
  temp ← substitution current "temp";
  description ← substitution current "description";
  humidity ← substitution current "humidity";
  wind_speed ← substitution current "wind_speed";
  some ← forecast_length_gt_zero forecast;
  days ← (if (some : bool)
          then body ← forecast_days forecast;
               Normal (forecast_open +:+ body +:+ forecast_close)
          else Normal "");
  Normal (current_text_0 +:+ icon +:+ current_text_1 +:+ alt +:+ current_text_2
          +:+ temp +:+ current_text_3 +:+ description +:+ current_text_4
          +:+ humidity +:+ current_text_5 +:+ wind_speed +:+ current_text_6
          +:+ days +:+ template_end).

(** [renderWeather(widget, data)]: the widget after the call, or the
    exception the call throws (the widget is then untouched: the template is
    evaluated before the assignment to [innerHTML]). *)
Definition renderWeather (widget : Widget) (data : value) : completion Widget :=
  if negb (ToBoolean data) then Normal (set_innerHTML widget unavailable)
  else
    error ← Get data "error";
    if ToBoolean error then Normal (set_innerHTML widget unavailable)
    else
      current ← Get data "current";
      f ← Get data "forecast";
      let forecast := if ToBoolean f then f else Arr [] in
      markup ← weather_markup current forecast;
      Normal (set_innerHTML widget markup).

(** ** The module's state and its environment *)

(** A value of [this.cache]: [{ data, timestamp }]. *)
Record CacheEntry := {
  data : value;
  timestamp : Z
}.

(** A call of [fetch] made by [fetchWeather]: the URL requested, the cache
    key its [.then] callback closes over, the widgets whose
    [.then(render).catch(...)] chain hangs on the promise [fetchWeather]
    returned, and whether the call has been answered. *)
Record Fetch := {
  url : string;
  cacheKey : string;
  reactions : list nat;
  answered : bool
}.

(** How a promise ends. *)
Inductive settled :=
| Fulfilled (v : value)
| Rejected (e : error).

(** What [fetchWeather] returns: [Promise.resolve(cached.data)], or the
    promise at the end of [fetch(...).then(...).then(...)], named by the
    position of its [fetch] in the list of all calls. *)
Inductive promise :=
| Resolved (v : value)
| Awaiting (id : nat).

(** What the network answers to a [fetch]: nothing (the promise of [fetch]
    rejects), or a response with a status and a body; [body] is the value
    [response.json()] resolves with, [None] when the body is not JSON. *)
Inductive response :=
| NoResponse
| Response (status : Z) (body : option value).

(** The state of the page: the module's cache, the widgets, the promises
    and timers the browser holds for the module, and two records kept for the
    statements below ([network] keeps the fetches already answered, [passes]
    counts the refreshes). [document] is a flat list, the same for every
    pass: no widget lies inside another, and no markup written into a widget
    holds a widget. *)
Record World := {
  clock : Z;                              (* Date.now() *)
  cache : gmap string CacheEntry;         (* this.cache *)
  document : list Widget;                 (* the [data-weather-lat][data-weather-lon] elements *)
  network : list Fetch;                   (* every call of fetch, oldest first *)
  microtasks : list (nat * settled);      (* promise reactions waiting to run *)
  intervals : list Z;                     (* delays registered with setInterval *)
  console : list error;                   (* console.error('Weather fetch failed:', _) *)
  passes : nat                            (* calls of loadWeatherData so far *)
}.

Definition set_clock (w : World) (t : Z) : World :=
  {| clock := t; cache := cache w; document := document w; network := network w;
     microtasks := microtasks w; intervals := intervals w; console := console w;
     passes := passes w |}.

Definition set_cache (w : World) (c : gmap string CacheEntry) : World :=
  {| clock := clock w; cache := c; document := document w; network := network w;
     microtasks := microtasks w; intervals := intervals w; console := console w;
     passes := passes w |}.

Definition set_document (w : World) (d : list Widget) : World :=
  {| clock := clock w; cache := cache w; document := d; network := network w;
     microtasks := microtasks w; intervals := intervals w; console := console w;
     passes := passes w |}.

Definition set_network (w : World) (n : list Fetch) : World :=
  {| clock := clock w; cache := cache w; document := document w; network := n;
     microtasks := microtasks w; intervals := intervals w; console := console w;
     passes := passes w |}.

Definition set_microtasks (w : World) (q : list (nat * settled)) : World :=
  {| clock := clock w; cache := cache w; document := document w; network := network w;
     microtasks := q; intervals := intervals w; console := console w;
     passes := passes w |}.

Definition set_intervals (w : World) (l : list Z) : World :=
  {| clock := clock w; cache := cache w; document := document w; network := network w;
     microtasks := microtasks w; intervals := l; console := console w;
     passes := passes w |}.

Definition set_console (w : World) (l : list error) : World :=
  {| clock := clock w; cache := cache w; document := document w; network := network w;
     microtasks := microtasks w; intervals := intervals w; console := l;
     passes := passes w |}.

Definition set_passes (w : World) (n : nat) : World :=
  {| clock := clock w; cache := cache w; document := document w; network := network w;
     microtasks := microtasks w; intervals := intervals w; console := console w;
     passes := n |}.

(** [BatokoChautari.config.weatherUpdateInterval] *)
Definition weatherUpdateInterval : Z := 300000.

(** ** fetchWeather *)

(** [`${lat},${lon}`] *)
Definition cacheKey_of (lat lon : number) : string :=
  Number_toString lat +:+ "," +:+ Number_toString lon.

(** [`/api/weather/${lat}/${lon}`] *)
Definition url_of (lat lon : number) : string :=
  "/api/weather/" +:+ Number_toString lat +:+ "/" +:+ Number_toString lon.

(** [fetch(url)], followed by the two [.then] of [fetchWeather]: the call is
    recorded; its promise is settled later, by [fetchWeather_then]. *)
Definition fetch (address key : string) (w : World) : promise * World :=
  (Awaiting (length (network w)),
   set_network w (network w ++
     [{| url := address; cacheKey := key; reactions := []; answered := false |}])).

(** The synchronous part of [fetchWeather(lat, lon)]. *)
Definition fetchWeather (lat lon : number) (w : World) : promise * World :=
  let key := cacheKey_of lat lon in
  let cached := cache w !! key in
  match cached with
  | Some entry =>
      if clock w - timestamp entry <? 300000
      then (Resolved (data entry), w)
      else fetch (url_of lat lon) key w
  | None => fetch (url_of lat lon) key w
  end.

(** The rest of [fetchWeather], run when the network has answered:
    [.then(response => response.json())] and
    [.then(data => { this.cache.set(cacheKey, {data, timestamp: Date.now()}); return data; })].
    A rejection skips both callbacks; the status of a response is not read. *)
Definition fetchWeather_then (key : string) (r : response) (w : World) : settled * World :=
  match r with
  | NoResponse => (Rejected FetchFailed, w)
  | Response _ None => (Rejected SyntaxError, w)
  | Response _ (Some payload) =>
      (Fulfilled payload,
       set_cache w (<[key := {| data := payload; timestamp := clock w |}]> (cache w)))
  end.

(** ** loadWeatherData *)

Definition add_reaction (widget : nat) (f : Fetch) : Fetch :=
  {| url := url f; cacheKey := cacheKey f;
     reactions := reactions f ++ [widget]; answered := answered f |}.

(** [p.then(data => this.renderWeather(widget, data)).catch(error => ...)]:
    on a promise already resolved the reaction is queued at once, otherwise
    it waits for the [fetch]. *)
Definition then_render_catch (p : promise) (widget : nat) (w : World) : World :=
  match p with
  | Resolved payload => set_microtasks w (microtasks w ++ [(widget, Fulfilled payload)])
  | Awaiting id => set_network w (alter (add_reaction widget) id (network w))
  end.

(** The callback of [weatherWidgets.forEach]. *)
Definition load_widget (w : World) (widget : nat) : World :=
  match document w !! widget with
  | Some element =>
      let lat := parseFloat (weatherLat element) in
      let lon := parseFloat (weatherLon element) in
      let '(p, w') := fetchWeather lat lon w in
      then_render_catch p widget w'
  | None => w
  end.

Definition loadWeatherData (w : World) : World :=
  let weatherWidgets := seq 0 (length (document w)) in
  foldl load_widget (set_passes w (S (passes w))) weatherWidgets.

(** [setInterval(() => { this.loadWeatherData(); }, config.weatherUpdateInterval)] *)
Definition setupPeriodicUpdates (w : World) : World :=
  set_intervals w (intervals w ++ [weatherUpdateInterval]).

Definition init (w : World) : World :=
  setupPeriodicUpdates (loadWeatherData w).

(** ** Promise reactions *)

(** One reaction of a widget's chain. A fulfilled promise runs
    [data => this.renderWeather(widget, data)]; if that throws, the promise
    it feeds is rejected and [.catch] runs in a later microtask. A rejected
    promise runs the [.catch] callback. *)
Definition run_reaction (widget : nat) (s : settled) (w : World) : World :=
  match document w !! widget with
  | Some element =>
      match s with
      | Fulfilled payload =>
          match renderWeather element payload with
          | Normal element' => set_document w (<[widget := element']> (document w))
          | Throw e => set_microtasks w (microtasks w ++ [(widget, Rejected e)])
          end
      | Rejected e =>
          set_document (set_console w (console w ++ [e]))
            (<[widget := set_innerHTML element unavailable]> (document w))
      end
  | None => w
  end.

(** A bound on the reactions still to run: one that renders may queue one
    more, one that catches queues none. *)
Definition weight (t : nat * settled) : nat :=
  match t.2 with
  | Fulfilled _ => 2
  | Rejected _ => 1
  end.

Fixpoint drain_for (fuel : nat) (w : World) : World :=
  match fuel with
  | O => w
  | S fuel' =>
      match microtasks w with
      | [] => w
      | (widget, s) :: rest => drain_for fuel' (run_reaction widget s (set_microtasks w rest))
      end
  end.

(** The microtask checkpoint at the end of a task: reactions run in the
    order queued until none is left. *)
Definition drain (w : World) : World :=
  drain_for (sum_list_with weight (microtasks w)) w.

(** ** The event loop *)

(** The tasks the environment starts after the page has loaded. *)
Inductive event :=
| Elapse (now : Z)                      (* time passes: Date.now() reads [now] *)
| Respond (id : nat) (r : response)     (* the network answers the [id]-th fetch *)
| Tick (timer : nat).                   (* the [timer]-th interval fires *)

Definition mark_answered (f : Fetch) : Fetch :=
  {| url := url f; cacheKey := cacheKey f; reactions := reactions f; answered := true |}.

(** The answer to a fetch settles the promise of [fetchWeather] and queues
    the reactions attached to it; a fetch is answered once. *)
Definition respond (id : nat) (r : response) (w : World) : World :=
  match network w !! id with
  | Some f =>
      if answered f then w
      else
        let '(s, w') := fetchWeather_then (cacheKey f) r w in
        set_microtasks
          (set_network w' (<[id := mark_answered f]> (network w')))
          (microtasks w' ++ ((λ widget, (widget, s)) <$> reactions f))
  | None => w
  end.

Definition task (e : event) (w : World) : World :=
  match e with
  | Elapse now => set_clock w now
  | Respond id r => respond id r w
  | Tick timer =>
      match intervals w !! timer with
      | Some _ => loadWeatherData w
      | None => w
      end
  end.

Definition handle (w : World) (e : event) : World := drain (task e w).

Definition run (events : list event) (w : World) : World := foldl handle w events.

(** The page at [DOMContentLoaded], before any module is initialised. *)
Definition page (widgets : list Widget) (now : Z) : World :=
  {| clock := now; cache := ∅; document := widgets; network := [];
     microtasks := []; intervals := []; console := []; passes := 0 |}.

(** The [DOMContentLoaded] listener calls [module.init()] of the weather
    module once. *)
Definition DOMContentLoaded (w : World) : World := drain (init w).

End Weather.
Arguments value : clear implicits.
Arguments World : clear implicits.
Arguments CacheEntry : clear implicits.
Arguments settled : clear implicits.
Arguments promise : clear implicits.
Arguments response : clear implicits.
Arguments event : clear implicits.

(** ** Vocabulary of the statements *)

Section Vocabulary.

Context {number : Type} `{!JSNumber number}.

(** The payload a call of [fetchWeather(lat, lon)] would be served from the
    cache, if any. *)
Definition cached_payload (w : World number) (lat lon : number) : option (value number) :=
  match cache w !! cacheKey_of lat lon with
  | Some entry => if clock w - timestamp entry <? 300000 then Some (data entry) else None
  | None => None
  end.

(** How the promise of [fetchWeather] ends, given the answer of the network. *)
Definition settlement (r : response number) : settled number :=
  match r with
  | NoResponse => Rejected FetchFailed
  | Response _ None => Rejected SyntaxError
  | Response _ (Some payload) => Fulfilled payload
  end.

(** The fetch failed: no response, or a body that is not JSON. *)
Definition failed (r : response number) : Prop :=
  r = NoResponse ∨ ∃ status, r = Response status None.

(** What the chain [.then(data => renderWeather(widget, data)).catch(...)]
    leaves of a widget once the promise it hangs on has settled. *)
Definition settle_widget (element : Widget) (s : settled number) : Widget :=
  match s with
  | Fulfilled payload =>
      match renderWeather element payload with
      | Normal element' => element'
      | Throw _ => set_innerHTML element unavailable
      end
  | Rejected _ => set_innerHTML element unavailable
  end.

(** The reactions of widget [i] in a queue, in order. *)
Fixpoint tasks_of (i : nat) (q : list (nat * settled number)) : list (settled number) :=
  match q with
  | [] => []
  | (j, s) :: rest => if decide (j = i) then s :: tasks_of i rest else tasks_of i rest
  end.

(** Widget [i] waits for the answer to fetch [id], and for nothing else: the
    chain of [i] hangs on that fetch, which is unanswered, on no other
    unanswered fetch and on no queued reaction. *)
Definition awaiting (w : World number) (i id : nat) : Prop :=
  tasks_of i (microtasks w) = []
  ∧ (∃ f, network w !! id = Some f ∧ answered f = false ∧ reactions f = [i])
  ∧ (∀ id' f', network w !! id' = Some f' → answered f' = false →
       i ∈ reactions f' → id' = id).

(** Widget [i] waits for nothing. *)
Definition at_rest (w : World number) (i : nat) : Prop :=
  tasks_of i (microtasks w) = []
  ∧ (∀ id' f', network w !! id' = Some f' → answered f' = false → i ∉ reactions f').

(** The first answer a sequence of events gives to fetch [id]. *)
Fixpoint first_response (id : nat) (es : list (event number)) : option (response number) :=
  match es with
  | [] => None
  | Respond id' r :: rest => if decide (id' = id) then Some r else first_response id rest
  | _ :: rest => first_response id rest
  end.

Definition is_tick (e : event number) : bool :=
  match e with
  | Tick _ => true
  | _ => false
  end.

(** No interval fires during [es]. *)
Definition tick_free (es : list (event number)) : Prop :=
  Forall (λ e, is_tick e = false) es.

(** The firings of the [timer]-th interval among [es]. *)
Fixpoint ticks_of (timer : nat) (es : list (event number)) : nat :=
  match es with
  | [] => 0
  | Tick t :: rest => if decide (t = timer) then S (ticks_of timer rest) else ticks_of timer rest
  | _ :: rest => ticks_of timer rest
  end.

(** A value whose string conversion is immediate. *)
Definition primitive (v : value number) : bool :=
  match v with
  | Arr _ | Obj _ => false
  | _ => true
  end.

(** An object whose properties [names], where present, are primitive. *)
Definition has_primitive (names : list string) (v : value number) : bool :=
  match v with
  | Obj properties =>
      forallb (λ k, primitive (default Undefined (GetOwnProperty properties k))) names
  | _ => false
  end.

(** A payload of the shape the endpoint documents: no truthy [error], an
    object [current] whose displayed properties are primitive, and a
    [forecast] that is absent or an array of objects whose displayed
    properties are primitive. *)
Definition well_formed (payload : value number) : bool :=
  match payload with
  | Obj properties =>
      negb (ToBoolean (default Undefined (GetOwnProperty properties "error")))
      && has_primitive ["icon"; "description"; "temp"; "humidity"; "wind_speed"]
           (default Undefined (GetOwnProperty properties "current"))
      && match GetOwnProperty properties "forecast" with
         | None => true
         | Some (Arr days) =>
             forallb (has_primitive ["date"; "icon"; "temp_max"; "temp_min"]) days
         | Some _ => false
         end
  | _ => false
  end.

(** [w'] is [w] with more fetches and more queued reactions, none of which
    involves widget [a]. *)
Definition extends_without (a : nat) (w w' : World number) : Prop :=
  document w' = document w ∧ cache w' = cache w ∧ clock w' = clock w
  ∧ intervals w' = intervals w ∧ passes w' = passes w
  ∧ ∃ news tasks,
      network w' = (network w ++ news)%list
      ∧ Forall (λ f, a ∉ reactions f) news
      ∧ microtasks w' = (microtasks w ++ tasks)%list
      ∧ tasks_of a tasks = [].


(** [w'] is [w] after one pass over the widgets: the one of
    [DOMContentLoaded], or the one of a firing of the interval. *)
Definition pass_of (w w' : World number) : Prop :=
  w' = DOMContentLoaded w ∨ w' = drain (loadWeatherData w).

(** What [renderWeather] takes for the absence of data: a falsy payload, or
    one whose [error] property is truthy. *)
Definition error_marker (payload : value number) : Prop :=
  ToBoolean payload = false
  ∨ ∃ err, Get payload "error" = Normal err ∧ ToBoolean err = true.

(** What the read [v.k] gives when it does not throw. *)
Definition member (v : value number) (k : string) : value number :=
  match v with
  | Obj properties => default Undefined (GetOwnProperty properties k)
  | _ => Undefined
  end.

(** What a template literal prints for a value whose conversion returns. *)
Definition printed (v : value number) : string :=
  match ToString v with
  | Normal text => text
  | Throw _ => ""
  end.

(** The markup of one day of the forecast. *)
Definition day_markup (day : value number) : string :=
  day_text_0 +:+ printed (member day "date") +:+ day_text_1
  +:+ printed (member day "icon") +:+ day_text_2
  +:+ printed (member day "temp_max") +:+ day_text_3
  +:+ printed (member day "temp_min") +:+ day_text_4.

(** The markup of the forecast: a block of days for an array that has some,
    nothing otherwise. *)
Definition forecast_markup (forecast : value number) : string :=
  match forecast with
  | Arr (day :: days) =>
      forecast_open
      +:+ foldr (λ d rest, day_markup d +:+ rest) "" (day :: days)
      +:+ forecast_close
  | _ => ""
  end.

(** The weather markup of a payload: the template of [renderWeather] filled
    with the members of [current] and the days of [forecast], as they print. *)
Definition markup_of (payload : value number) : string :=
  let current := member payload "current" in
  current_text_0 +:+ printed (member current "icon")
  +:+ current_text_1 +:+ printed (member current "description")
  +:+ current_text_2 +:+ printed (member current "temp")
  +:+ current_text_3 +:+ printed (member current "description")
  +:+ current_text_4 +:+ printed (member current "humidity")
  +:+ current_text_5 +:+ printed (member current "wind_speed")
  +:+ current_text_6 +:+ forecast_markup (member payload "forecast")
  +:+ template_end.

(** The weather markup in which every field of [current] reads [undefined]
    and no forecast is shown. *)
Definition undefined_markup : string :=
  current_text_0 +:+ "undefined" +:+ current_text_1 +:+ "undefined"
  +:+ current_text_2 +:+ "undefined" +:+ current_text_3 +:+ "undefined"
  +:+ current_text_4 +:+ "undefined" +:+ current_text_5 +:+ "undefined"
  +:+ current_text_6 +:+ template_end.

(** Induction on values, through the elements of arrays and the properties
    of objects. *)
Fixpoint value_induction (P : value number → Prop)
    (HUndefined : P Undefined) (HNull : P Null)
    (HBool : ∀ b, P (Bool b)) (HNum : ∀ n, P (Num n)) (HStr : ∀ text : string, P (Str text))
    (HArr : ∀ elements, Forall P elements → P (Arr elements))
    (HObj : ∀ properties, Forall (λ p, P p.2) properties → P (Obj properties))
    (v : value number) : P v :=
  let IH := value_induction P HUndefined HNull HBool HNum HStr HArr HObj in
  match v with
  | Undefined => HUndefined
  | Null => HNull
  | Bool b => HBool b
  | Num n => HNum n
  | Str text => HStr text
  | Arr elements =>
      HArr elements
        ((fix all (l : list (value number)) : Forall P l :=
            match l with
            | [] => Forall_nil_2 P
            | x :: l' => Forall_cons_2 P x l' (IH x) (all l')
            end) elements)
  | Obj properties =>
      HObj properties
        ((fix all (l : list (string * value number)) : Forall (λ p, P p.2) l :=
            match l with
            | [] => Forall_nil_2 _
            | p :: l' => Forall_cons_2 (λ p, P p.2) p l' (IH p.2) (all l')
            end) properties)
  end.

End Vocabulary.

(** ** A number instance for the examples *)

(** Integers and NaN: a fragment of the JavaScript numbers on which the
    operations of [JSNumber] are decimal notation and integer comparison.
    [None] is NaN. It agrees with JavaScript on what the examples use: plain
    decimal numerals of integers up to 2^53 in size, the empty string, and
    text that does not begin like a numeral. It is not JavaScript outside
    of that: a fraction such as [27.7172] or an exponent reads as NaN here,
    and an integer beyond 2^53 is not rounded. *)
Fixpoint digits (s : string) (acc : Z) : option Z :=
  match s with
  | EmptyString => Some acc
  | String c s' =>
      let d := (Z.of_nat (nat_of_ascii c) - 48)%Z in
      if ((0 <=? d) && (d <=? 9))%Z then digits s' (10 * acc + d)%Z else None
  end.

Definition integer_of_string (s : string) : option Z :=
  match s with
  | EmptyString => None
  | String "-" EmptyString => None
  | String "-" s' => Z.opp <$> digits s' 0
  | _ => digits s 0
  end.

#[global] Instance integer_JSNumber : JSNumber (option Z) := {|
  parseFloat := integer_of_string;
  Number_toString := λ x, match x with Some z => pretty z | None => "NaN" end;
  Number_ToBoolean := λ x, match x with Some z => negb (z =? 0)%Z | None => false end;
  StringToNumber := λ s, if String.eqb s "" then Some 0%Z else integer_of_string s;
  Number_gt_zero := λ x, match x with Some z => (0 <? z)%Z | None => false end
|}.


(** ** Sample data for the examples *)

Definition kathmandu : Widget :=
  {| weatherLat := "27"; weatherLon := "85"; innerHTML := "" |}.

Definition origin : Widget :=
  {| weatherLat := "0"; weatherLon := "0"; innerHTML := "" |}.

Definition clear_sky : value (option Z) :=
  Obj [("current",
        Obj [("temp", Num (Some 21)); ("description", Str "clear sky");
             ("icon", Str "01d"); ("humidity", Num (Some 40));
             ("wind_speed", Num (Some 3))]);
       ("forecast",
        Arr [Obj [("date", Str "Mon"); ("icon", Str "02d");
                  ("temp_max", Num (Some 25)); ("temp_min", Num (Some 12))]])].

(** What [renderWeather] writes for [clear_sky]. *)
Definition clear_sky_markup : string :=
  current_text_0 +:+ "01d" +:+ current_text_1 +:+ "clear sky" +:+ current_text_2
  +:+ "21" +:+ current_text_3 +:+ "clear sky" +:+ current_text_4
  +:+ "40" +:+ current_text_5 +:+ "3" +:+ current_text_6
  +:+ forecast_open
  +:+ (day_text_0 +:+ "Mon" +:+ day_text_1 +:+ "02d" +:+ day_text_2
       +:+ "25" +:+ day_text_3 +:+ "12" +:+ day_text_4)
  +:+ forecast_close +:+ template_end.

(** [{ "error": true }] *)
Definition error_body : value (option Z) := Obj [("error", Bool true)].

(** [{ "current": 5 }] *)
Definition bare_current : value (option Z) := Obj [("current", Num (Some 5))].

(** A page with one widget whose payload was cached at time 900, seen at
    time 1000. *)
Definition cached_entry : CacheEntry (option Z) :=
  {| data := clear_sky; timestamp := 900 |}.

Definition cached_world : World (option Z) :=
  set_cache (page [kathmandu] 1000) {[ "27,85" := cached_entry ]}.

(** The same page five minutes later. *)
Definition stale_world : World (option Z) := set_clock cached_world 300900.

(** A page with two widgets, before the module is initialised. *)
Definition two_widgets : World (option Z) := page [origin; kathmandu] 1000.

(** * The rest of main.js: strings *)

(** A JavaScript string is a sequence of UTF-16 code units: [length],
    [substring], [split], [trim] and regular expressions without the [u]
    flag all count and compare code units. *)
Abbreviation jsstring := (list N).

(** The code units of a literal written in ASCII. *)
Fixpoint code_units (s : string) : jsstring :=
  match s with
  | EmptyString => []
  | String c s' => N_of_ascii c :: code_units s'
  end.

(** White space and line terminators: what [\s] matches and what [trim]
    removes. *)
Definition is_space (c : N) : bool :=
  match c with
  | 9 | 10 | 11 | 12 | 13 | 32 | 160 | 5760 | 8232 | 8233 | 8239 | 8287 | 12288 | 65279 => true
  | _ => (8192 <=? c)%N && (c <=? 8202)%N
  end%N.

Definition char_in (lo hi : string) (c : N) : bool :=
  match code_units lo, code_units hi with
  | [l], [h] => (l <=? c)%N && (c <=? h)%N
  | _, _ => false
  end.

(** [[a-z]], [[A-Z]] and [\d]. *)
Definition is_lower (c : N) : bool := char_in "a" "z" c.
Definition is_upper (c : N) : bool := char_in "A" "Z" c.
Definition is_digit (c : N) : bool := char_in "0" "9" c.

(** ** Regular expressions *)

(** The patterns main.js writes are made of classes of code units, sequence
    and repetition; the other forms are what is left of such a pattern while
    a string is read. *)
Inductive regex :=
| Fail
| Eps
| Class (p : N → bool)
| Seq (r1 r2 : regex)
| Alt (r1 r2 : regex)
| Star (r : regex).

(** [r+] *)
Definition Plus (r : regex) : regex := Seq r (Star r).

(** Whether [r] matches the empty string. *)
Fixpoint nullable (r : regex) : bool :=
  match r with
  | Fail => false
  | Eps => true
  | Class _ => false
  | Seq r1 r2 => nullable r1 && nullable r2
  | Alt r1 r2 => nullable r1 || nullable r2
  | Star _ => true
  end.

(** What is left of [r] to match once the code unit [c] has been read. *)
Fixpoint after (c : N) (r : regex) : regex :=
  match r with
  | Fail => Fail
  | Eps => Fail
  | Class p => if p c then Eps else Fail
  | Seq r1 r2 =>
      if nullable r1
      then Alt (Seq (after c r1) r2) (after c r2)
      else Seq (after c r1) r2
  | Alt r1 r2 => Alt (after c r1) (after c r2)
  | Star r1 => Seq (after c r1) (Star r1)
  end.

(** [/^r$/.test(s)]: the whole of [s] matches [r]. A pattern without
    back-references matches when some way of matching exists, whatever the
    order in which the engine tries them. *)
Fixpoint test_anchored (r : regex) (s : jsstring) : bool :=
  match s with
  | [] => nullable r
  | c :: s' => test_anchored (after c r) s'
  end.

(** [/r/.test(s)], and the truth of [s.match(/r/)]: some part of [s]
    matches [r]. *)
Definition test (r : regex) (s : jsstring) : bool :=
  test_anchored (Seq (Star (Class (λ _, true))) (Seq r (Star (Class (λ _, true))))) s.

(** ** utils.isValidEmail *)

(** [[^\s@]] *)
Definition not_space_nor_at (c : N) : bool :=
  negb (is_space c || (c =? 64)%N).

(** [/^[^\s@]+@[^\s@]+\.[^\s@]+$/] *)
Definition emailRegex : regex :=
  Seq (Plus (Class not_space_nor_at))
    (Seq (Class (N.eqb 64))
       (Seq (Plus (Class not_space_nor_at))
          (Seq (Class (N.eqb 46))
             (Plus (Class not_space_nor_at))))).

Definition isValidEmail (email : jsstring) : bool := test_anchored emailRegex email.

(** ** formValidation.checkPasswordStrength *)

(** [{ score, text, class }] *)
Record Strength := {
  score : nat;
  text : jsstring;
  class : jsstring
}.

Definition checkPasswordStrength (password : jsstring) : Strength :=
  let score := 0%nat in
  let text := code_units "Too weak" in
  let className := code_units "bg-danger" in
  let score := if (6 <=? length password)%nat then S score else score in
  let score :=
    if test (Class is_lower) password && test (Class is_upper) password
    then S score else score in
  let score := if test (Class is_digit) password then S score else score in
  let score :=
    if test (Class (λ c, negb (is_lower c || is_upper c || is_digit c))) password
    then S score else score in
  let '(text, className) :=
    match score with
    | 0%nat | 1%nat => (code_units "Weak", code_units "bg-danger")
    | 2%nat => (code_units "Fair", code_units "bg-warning")
    | 3%nat => (code_units "Good", code_units "bg-info")
    | 4%nat => (code_units "Strong", code_units "bg-success")
    | _ => (text, className)
    end in
  {| score := score; text := text; class := className |}.

(** ** Vocabulary: what a pattern matches *)

(** The strings a pattern matches as a whole. *)
Inductive matched : regex → jsstring → Prop :=
| matched_eps : matched Eps []
| matched_class p c : p c = true → matched (Class p) [c]
| matched_seq r1 r2 s1 s2 :
    matched r1 s1 → matched r2 s2 → matched (Seq r1 r2) (s1 ++ s2)
| matched_alt_l r1 r2 s : matched r1 s → matched (Alt r1 r2) s
| matched_alt_r r1 r2 s : matched r2 s → matched (Alt r1 r2) s
| matched_star_done r : matched (Star r) []
| matched_star_more r s1 s2 :
    matched r s1 → matched (Star r) s2 → matched (Star r) (s1 ++ s2).

(** The four criteria of [checkPasswordStrength]. *)
Definition long_enough (password : jsstring) : Prop := (6 ≤ length password)%nat.
Definition mixed_case (password : jsstring) : Prop :=
  Exists (λ c, is_lower c = true) password ∧ Exists (λ c, is_upper c = true) password.
Definition has_digit (password : jsstring) : Prop :=
  Exists (λ c, is_digit c = true) password.
Definition has_other (password : jsstring) : Prop :=
  Exists (λ c, is_lower c = false ∧ is_upper c = false ∧ is_digit c = false) password.

(** * The rest of main.js: helpers of the page *)

(** [s.split(c)] for a separator of one code unit, and the splitting of a
    [class] attribute: the pieces of [s] between the code units that satisfy
    [p]. *)
Fixpoint split_where (p : N → bool) (s : jsstring) : list jsstring :=
  match s with
  | [] => [[]]
  | c :: s' =>
      if p c then [] :: split_where p s'
      else match split_where p s' with
           | piece :: pieces => (c :: piece) :: pieces
           | [] => [[c]]
           end
  end.

(** [pieces.join(sep)] *)
Fixpoint join (sep : jsstring) (pieces : list jsstring) : jsstring :=
  match pieces with
  | [] => []
  | [piece] => piece
  | piece :: rest => piece ++ sep ++ join sep rest
  end.

Fixpoint trimStart (s : jsstring) : jsstring :=
  match s with
  | c :: s' => if is_space c then trimStart s' else s
  | [] => []
  end.

(** [s.trim()] *)
Definition trim (s : jsstring) : jsstring :=
  reverse (trimStart (reverse (trimStart s))).

(** The decimal notation of a count, as a template literal prints it. *)
Definition decimal (n : nat) : jsstring := code_units (pretty n).

(** ** Class lists *)

(** The separators of the tokens of a [class] attribute. *)
Definition is_ascii_whitespace (c : N) : bool :=
  match c with
  | 9 | 10 | 12 | 13 | 32 => true
  | _ => false
  end%N.

(** [classList.add(token)]: a class list is an ordered set. *)
Definition classList_add (tokens : list jsstring) (token : jsstring) : list jsstring :=
  if decide (token ∈ tokens) then tokens else tokens ++ [token].

(** [classList.remove(token)] *)
Definition classList_remove (tokens : list jsstring) (token : jsstring) : list jsstring :=
  filter (λ t, t ≠ token) tokens.

(** [classList.toggle(token, force)] *)
Definition classList_toggle (tokens : list jsstring) (token : jsstring) (force : bool)
    : list jsstring :=
  if force then classList_add tokens token else classList_remove tokens token.

(** The class list that the assignment [element.className = s] leaves. *)
Definition class_tokens (s : jsstring) : list jsstring :=
  foldl classList_add [] (filter (λ t, t ≠ []) (split_where is_ascii_whitespace s)).

(** ** utils.sanitizeHtml *)

(** [temp.textContent = str; return temp.innerHTML]: the serialisation of a
    text node escapes [&], [<], [>] and the no-break space. *)
Fixpoint sanitizeHtml (str : jsstring) : jsstring :=
  match str with
  | [] => []
  | c :: rest =>
      match c with
      | 38 => code_units "&amp;"
      | 60 => code_units "&lt;"
      | 62 => code_units "&gt;"
      | 160 => code_units "&nbsp;"
      | _ => [c]
      end%N ++ sanitizeHtml rest
  end.

(** The code units that [sanitizeHtml] escapes. *)
Definition escaped (c : N) : bool :=
  match c with
  | 38 | 60 | 62 | 160 => true
  | _ => false
  end%N.

(** * notifications *)

(** The literal text of the module's templates; [quoted s] is [s] with every
    backquote replaced by a double quote. *)
Fixpoint quoted (s : string) : string :=
  match s with
  | EmptyString => EmptyString
  | String c s' => String (if Ascii.eqb c "`"%char then dquote else c) (quoted s')
  end.

Definition toast_style : jsstring :=
  code_units (quoted "
            margin-bottom: 10px;
            box-shadow: 0 4px 12px rgba(0,0,0,0.15);
            border: none;
            border-radius: 8px;
        ").

Definition toast_text_0 : jsstring :=
  code_units (quoted "
            <div class=`d-flex align-items-center`>
                <i class=`").

Definition toast_text_1 : jsstring :=
  code_units (quoted " me-2`></i>
                <span>").

Definition toast_text_2 : jsstring :=
  code_units (quoted "</span>
                <button type=`button` class=`btn-close ms-auto` onclick=`BatokoChautari.modules.notifications.hide('").

Definition toast_text_3 : jsstring :=
  code_units (quoted "')`></button>
            </div>
        ").

Module notifications.

(** An entry of [BatokoChautari.state.notifications]. *)
Record Notification := {
  id : jsstring;
  message : jsstring;
  type : jsstring;
  timestamp : Z
}.

(** A notification element: [node] tells it from the other elements. *)
Record Toast := {
  node : nat;
  element_id : jsstring;
  classes : list jsstring;
  style : jsstring;
  innerHTML : jsstring
}.

(** What a timer of the module does when it fires. *)
Inductive Callback :=
| HideLater (id : jsstring)      (* [() => { this.hide(id); }] *)
| RemoveLater (node : nat).      (* the removal that [hide] delays by 150 ms *)

(** The page, as far as the module goes: [this.container] ([None] is null,
    otherwise the children of the container), the notifications of the
    state, and the timers pending. [created] and [drawn] count the elements
    created and the calls of [generateId]. *)
Record Page := {
  now : Z;
  container : option (list Toast);
  state : list Notification;
  timers : list (Z * Callback);
  created : nat;
  drawn : nat
}.

Definition set_container (p : Page) (c : option (list Toast)) : Page :=
  {| now := now p; container := c; state := state p; timers := timers p;
     created := created p; drawn := drawn p |}.

Definition set_state (p : Page) (s : list Notification) : Page :=
  {| now := now p; container := container p; state := s; timers := timers p;
     created := created p; drawn := drawn p |}.

Definition set_timers (p : Page) (t : list (Z * Callback)) : Page :=
  {| now := now p; container := container p; state := state p; timers := t;
     created := created p; drawn := drawn p |}.

Definition set_now (p : Page) (t : Z) : Page :=
  {| now := t; container := container p; state := state p; timers := timers p;
     created := created p; drawn := drawn p |}.

(** [setTimeout(callback, delay)] *)
Definition setTimeout (callback : Callback) (delay : Z) (p : Page) : Page :=
  set_timers p (timers p ++ [(now p + Z.max 0 delay, callback)]).

Section Module.

(** [utils.generateId] draws from [Math.random]: [generateId n] is the
    identifier the [n]-th call returns. *)
Variable generateId : nat → jsstring.

Definition createContainer (p : Page) : Page :=
  match container p with
  | None => set_container p (Some [])
  | Some _ => p
  end.

Definition init (p : Page) : Page := createContainer p.

Definition iconMap : list (jsstring * jsstring) :=
  [(code_units "success", code_units "fas fa-check-circle");
   (code_units "error", code_units "fas fa-exclamation-circle");
   (code_units "warning", code_units "fas fa-exclamation-triangle");
   (code_units "info", code_units "fas fa-info-circle")].

Fixpoint property (map : list (jsstring * jsstring)) (key : jsstring) : option jsstring :=
  match map with
  | [] => None
  | (k, v) :: rest => if decide (k = key) then Some v else property rest key
  end.

(** [iconMap[type] || iconMap.info], for a [type] that is not the name of a
    member of [Object.prototype] (on [toString], say, the read finds the
    inherited function, which is not followed here). *)
Definition icon (type : jsstring) : jsstring :=
  match property iconMap type with
  | Some class => class
  | None => default [] (property iconMap (code_units "info"))
  end.

(** [show(message, type, duration)]: the identifier returned and the page
    after the call, or the exception thrown. *)
Definition show (message type : jsstring) (duration : Z) (p : Page)
    : completion jsstring * Page :=
  let id := generateId (drawn p) in
  let notification :=
    {| node := created p;
       element_id := code_units "notification-" ++ id;
       classes := class_tokens (code_units "alert alert-" ++ type
                                ++ code_units " alert-dismissible fade show notification-item");
       style := toast_style;
       innerHTML := toast_text_0 ++ icon type ++ toast_text_1 ++ sanitizeHtml message
                    ++ toast_text_2 ++ id ++ toast_text_3 |} in
  let p := {| now := now p; container := container p; state := state p;
              timers := timers p; created := S (created p); drawn := S (drawn p) |} in
  match container p with
  | None => (Throw TypeError, p)
  | Some children =>
      let p := set_container p (Some (children ++ [notification])%list) in
      let p := if 0 <? duration then setTimeout (HideLater id) duration p else p in
      let p := set_state p (state p ++ [{| id := id; message := message; type := type;
                                           timestamp := now p |}]) in
      (Normal id, p)
  end.

(** [document.getElementById]: the first element of that identifier. *)
Definition getElementById (p : Page) (identifier : jsstring) : option (nat * Toast) :=
  list_find (λ toast, element_id toast = identifier) (default [] (container p)).

Definition remove_show (toast : Toast) : Toast :=
  {| node := node toast; element_id := element_id toast;
     classes := classList_remove (classes toast) (code_units "show");
     style := style toast; innerHTML := innerHTML toast |}.

Definition hide (id : jsstring) (p : Page) : Page :=
  let p :=
    match getElementById p (code_units "notification-" ++ id) with
    | Some (i, notification) =>
        setTimeout (RemoveLater (node notification)) 150
          (set_container p (alter remove_show i <$> container p))
    | None => p
    end in
  set_state p (filter (λ n, notifications.id n ≠ id) (state p)).

(** [success(message, duration = 5000)] and the like: [None] is an argument
    left out. *)
Definition success (message : jsstring) (duration : option Z) (p : Page) :=
  show message (code_units "success") (default 5000 duration) p.

Definition error (message : jsstring) (duration : option Z) (p : Page) :=
  show message (code_units "danger") (default 8000 duration) p.

Definition warning (message : jsstring) (duration : option Z) (p : Page) :=
  show message (code_units "warning") (default 6000 duration) p.

Definition info (message : jsstring) (duration : option Z) (p : Page) :=
  show message (code_units "info") (default 5000 duration) p.

(** ** Timers *)

(** [if (notification.parentNode) notification.parentNode.removeChild(notification)] *)
Definition remove (n : nat) (p : Page) : Page :=
  set_container p (filter (λ toast, node toast ≠ n) <$> container p).

Definition call (callback : Callback) (p : Page) : Page :=
  match callback with
  | HideLater id => hide id p
  | RemoveLater n => remove n p
  end.

(** What happens to the page: time passes (never backwards), or a timer
    that is due fires. An event that cannot happen leaves the page as it is. *)
Inductive event :=
| Elapse (t : Z)
| Fire (k : nat).

Definition step (p : Page) (e : event) : Page :=
  match e with
  | Elapse t => if now p <=? t then set_now p t else p
  | Fire k =>
      match timers p !! k with
      | Some (due, callback) =>
          if due <=? now p then call callback (set_timers p (delete k (timers p))) else p
      | None => p
      end
  end.

Definition run (es : list event) (p : Page) : Page := foldl step p es.

End Module.

End notifications.

(** * imageHandler.validateFile and photoGallery.handleFileSelection *)

(** A [File]: its name, its MIME type and its size in bytes. *)
Record File := {
  file_name : jsstring;
  file_type : jsstring;
  file_size : N
}.

(** [BatokoChautari.config.allowedImageTypes] *)
Definition allowedImageTypes : list jsstring :=
  [code_units "image/jpeg"; code_units "image/png";
   code_units "image/gif"; code_units "image/webp"].

(** [BatokoChautari.config.maxFileSize]: [16 * 1024 * 1024] *)
Definition maxFileSize : N := 16 * 1024 * 1024.

(** [{ valid, errors }] *)
Record Validation := {
  valid : bool;
  errors : list jsstring
}.

(** What [handleFileSelection] calls, next to [validateFile]. *)
Inductive Action :=
| NotifyError (message : jsstring)      (* [notifications.error(message)] *)
| ShowPreview (files : list File)       (* [this.showPhotoPreview(files, input)] *)
| NotifySuccess (message : jsstring).   (* [notifications.success(message)] *)

(** What [handleFileSelection] does to the page: the notifications module,
    and the calls it makes, in their order. *)
Record Gallery := {
  toasts : notifications.Page;
  actions : list Action
}.

Section Files.

(** [utils.formatFileSize] goes through [Math.log] and [toFixed]: its result
    is left to the run time. *)
Variable formatFileSize : N → jsstring.

Variable generateId : nat → jsstring.

Definition validateFile (file : File) : Validation :=
  let errors := [] in
  let errors :=
    if negb (bool_decide (file_type file ∈ allowedImageTypes))
    then (errors ++ [code_units
      "Invalid file type. Please upload JPG, PNG, GIF, or WebP images only."])%list
    else errors in
  let errors :=
    if (maxFileSize <? file_size file)%N
    then (errors ++ [code_units "File size too large. Maximum size is "
                     ++ formatFileSize maxFileSize ++ code_units "."])%list
    else errors in
  {| valid := Nat.eqb (length errors) 0; errors := errors |}.

(** The body of [files.forEach] in [handleFileSelection], on the two arrays
    it fills ([errorLines] is the array the source calls [errors]). *)
Definition sort_file (acc : list File * list jsstring) (file : File)
    : list File * list jsstring :=
  let '(validFiles, errorLines) := acc in
  let validation := validateFile file in
  if valid validation
  then ((validFiles ++ [file])%list, errorLines)
  else (validFiles,
        (errorLines ++ [file_name file ++ code_units ": "
                        ++ join (code_units ", ") (errors validation)])%list).

(** A call of the notifications module: the call is recorded, and the
    module is as the call leaves it. *)
Definition notify (action : Action) (outcome : completion jsstring * notifications.Page)
    (g : Gallery) : completion jsstring * Gallery :=
  (outcome.1, {| toasts := outcome.2; actions := (actions g ++ [action])%list |}).

(** [this.showPhotoPreview(files, input)], as far as it is followed here:
    the call and its files. *)
Definition showPhotoPreview (files : list File) (g : Gallery) : Gallery :=
  {| toasts := toasts g; actions := (actions g ++ [ShowPreview files])%list |}.

Definition handleFileSelection (files : list File) (g : Gallery)
    : completion unit * Gallery :=
  let '(validFiles, errorLines) := foldl sort_file ([], []) files in
  let '(reported, g) :=
    if (0 <? length errorLines)%nat
    then let message :=
           (code_units "Some files were rejected:" ++ [10%N] ++ join [10%N] errorLines)%list in
         notify (NotifyError message)
           (notifications.error generateId message None (toasts g)) g
    else (Normal [], g) in
  match reported with
  | Throw e => (Throw e, g)
  | Normal _ =>
      if (0 <? length validFiles)%nat
      then let g := showPhotoPreview validFiles g in
           let message :=
             (decimal (length validFiles)
              ++ code_units " photo(s) selected successfully")%list in
           let '(r, g) :=
             notify (NotifySuccess message)
               (notifications.success generateId message None (toasts g)) g in
           (_ ← r; Normal tt, g)
      else (Normal tt, g)
  end.

End Files.

(** * utils.getCookie *)

(** What [getCookie] gives: [null], a value, or the [URIError] that
    [decodeURIComponent] throws. *)
Inductive cookie :=
| NoCookie
| Cookie (value : jsstring)
| CookieError.

Section Cookies.

(** [decodeURIComponent]; [None] when it throws (its argument is not a
    well-formed escape sequence). *)
Variable decodeURIComponent : jsstring → option jsstring.

(** The loop of [getCookie] over the pieces of [document.cookie]. *)
Fixpoint scan_cookies (name : jsstring) (cookies : list jsstring) : cookie :=
  match cookies with
  | [] => NoCookie
  | piece :: rest =>
      let cookie := trim piece in
      if decide (take (length name + 1) cookie = (name ++ code_units "=")%list)
      then match decodeURIComponent (drop (length name + 1) cookie) with
           | Some value => Cookie value
           | None => CookieError
           end
      else scan_cookies name rest
  end.

(** [getCookie(name)], given the text of [document.cookie]. *)
Definition getCookie (document_cookie : jsstring) (name : jsstring) : cookie :=
  match document_cookie with
  | [] => NoCookie
  | _ => scan_cookies name (split_where (N.eqb 59) document_cookie)
  end.

End Cookies.

(** ** Vocabulary: files *)

Section FileVocabulary.

Variable formatFileSize : N → jsstring.

(** The file passes [validateFile]. *)
Definition accepted (file : File) : Prop :=
  valid (validateFile formatFileSize file) = true.

(** The line of the error notification about a rejected file. *)
Definition rejection (file : File) : jsstring :=
  (file_name file ++ code_units ": "
   ++ join (code_units ", ") (errors (validateFile formatFileSize file)))%list.

#[global] Instance accepted_dec (file : File) : Decision (accepted file).
Proof. unfold accepted. apply _. Defined.

End FileVocabulary.

(** The type and the message of every notification of the state, oldest
    first. *)
Definition notices (p : notifications.Page) : list (jsstring * jsstring) :=
  (λ n, (notifications.type n, notifications.message n)) <$> notifications.state p.

(** ** Vocabulary: cookies *)

(** A pair of a name and a value as [document.cookie] lists it. *)
Definition pair_text (pair : jsstring * jsstring) : jsstring :=
  (pair.1 ++ [61%N] ++ pair.2)%list.

(** A name and a value that [document.cookie] can list: no semicolon in
    either, no equals sign in the name, no white space around the pair. *)
Definition cookie_pair (pair : jsstring * jsstring) : Prop :=
  Forall (λ c, c ≠ 59%N) (pair_text pair)
  ∧ (61%N ∉ pair.1)
  ∧ (∀ c, head (pair_text pair) = Some c → is_space c = false)
  ∧ (∀ c, last (pair_text pair) = Some c → is_space c = false).

(** The text of [document.cookie] for a list of pairs. *)
Definition cookie_text (pairs : list (jsstring * jsstring)) : jsstring :=
  join (code_units "; ") (pair_text <$> pairs).

(** ** Vocabulary: notifications *)

(** The identifier [id] names nothing on the page yet, and the next element
    created is a new one. *)
Definition unused (p : notifications.Page) (id : jsstring) : Prop :=
  Forall (λ toast, notifications.element_id toast ≠ (code_units "notification-" ++ id)%list
                   ∧ notifications.node toast ≠ notifications.created p)
    (default [] (notifications.container p))
  ∧ Forall (λ n, notifications.id n ≠ id) (notifications.state p).

(** * utils.throttle *)

Module throttle.

Section Throttle.

(** The arguments of a call, with its [this]. *)
Context {A : Type}.

(** Whether [func] throws on these arguments; what else [func] does is not
    followed, only that it was called, when, and on what. *)
Variable throws : A → bool.

Variable limit : Z.

(** The closure [throttle(func, limit)] returns, with the timers it has
    started: [inThrottle] starts undefined, which reads as false. *)
Record Throttled := {
  now : Z;
  inThrottle : bool;
  timers : list Z;                 (* when each [() => inThrottle = false] is due *)
  invoked : list (Z * A)           (* the calls of [func], oldest first *)
}.

Definition initial (t : Z) : Throttled :=
  {| now := t; inThrottle := false; timers := []; invoked := [] |}.

Inductive event :=
| Call (args : A)                  (* the throttled function is called *)
| Elapse (t : Z)                   (* time passes, never backwards *)
| Fire (k : nat).                  (* the [k]-th pending timer fires, if it is due *)

(** The body of the function returned: when [func] throws, the two
    statements after it are not reached. *)
Definition call (args : A) (s : Throttled) : Throttled :=
  if negb (inThrottle s)
  then
    let called := (invoked s ++ [(now s, args)])%list in
    if throws args
    then {| now := now s; inThrottle := inThrottle s; timers := timers s; invoked := called |}
    else {| now := now s; inThrottle := true;
            timers := (timers s ++ [now s + Z.max 0 limit])%list; invoked := called |}
  else s.

Definition step (s : Throttled) (e : event) : Throttled :=
  match e with
  | Call args => call args s
  | Elapse t =>
      if now s <=? t
      then {| now := t; inThrottle := inThrottle s; timers := timers s; invoked := invoked s |}
      else s
  | Fire k =>
      match timers s !! k with
      | Some due =>
          if due <=? now s
          then {| now := now s; inThrottle := false; timers := delete k (timers s);
                  invoked := invoked s |}
          else s
      | None => s
      end
  end.

Definition run (es : list event) (s : Throttled) : Throttled := foldl step s es.



End Throttle.

End throttle.

(** * utils.debounce *)

Module debounce.

Section Debounce.

Context {A : Type}.

Variable wait : Z.

(** What the debounced function has been through: its calls, and the calls
    of [func] that its timers made. *)
Inductive entry :=
| Called (t : Z) (args : A)
| Invoked (t : Z) (args : A).

(** The closure [debounce(func, wait)] returns, with the timers pending:
    [timeout] is the handle of the last timer started, [None] while it is
    undefined; a timer carries the arguments its [later] closes over. *)
Record Debounced := {
  now : Z;
  timeout : option nat;
  timers : list (nat * (Z * A));   (* handle, time due, arguments *)
  next : nat;                      (* the handle [setTimeout] returns next *)
  history : list entry
}.

Definition initial (t : Z) : Debounced :=
  {| now := t; timeout := None; timers := []; next := 0; history := [] |}.

Inductive event :=
| Call (args : A)
| Elapse (t : Z)
| Fire (k : nat).

(** [clearTimeout(timeout)]: nothing happens on undefined or on the handle
    of a timer that has fired. *)
Definition clearTimeout (handle : option nat) (pending : list (nat * (Z * A)))
    : list (nat * (Z * A)) :=
  match handle with
  | Some h => filter (λ timer, timer.1 ≠ h) pending
  | None => pending
  end.

(** [executedFunction(...args)] *)
Definition call (args : A) (s : Debounced) : Debounced :=
  let pending := clearTimeout (timeout s) (timers s) in
  {| now := now s;
     timeout := Some (next s);
     timers := (pending ++ [(next s, (now s + Z.max 0 wait, args))])%list;
     next := S (next s);
     history := (history s ++ [Called (now s) args])%list |}.

(** [later()] *)
Definition later (args : A) (s : Debounced) : Debounced :=
  {| now := now s;
     timeout := timeout s;
     timers := clearTimeout (timeout s) (timers s);
     next := next s;
     history := (history s ++ [Invoked (now s) args])%list |}.

Definition step (s : Debounced) (e : event) : Debounced :=
  match e with
  | Call args => call args s
  | Elapse t =>
      if now s <=? t
      then {| now := t; timeout := timeout s; timers := timers s; next := next s;
              history := history s |}
      else s
  | Fire k =>
      match timers s !! k with
      | Some (_, (due, args)) =>
          if due <=? now s
          then later args {| now := now s; timeout := timeout s;
                             timers := delete k (timers s); next := next s;
                             history := history s |}
          else s
      | None => s
      end
  end.

Definition run (es : list event) (s : Debounced) : Debounced := foldl step s es.

(** Every call of [func] comes right after the call of the debounced
    function whose arguments it takes, made [wait] ms before or earlier. *)
Definition settled_calls (h : list entry) : Prop :=
  ∀ i t a, h !! i = Some (Invoked t a) →
    ∃ j t0, i = S j ∧ h !! j = Some (Called t0 a) ∧ t0 + wait ≤ t.

(** What holds of the closure between two events. *)
Definition quiet (s : Debounced) : Prop :=
  settled_calls (history s)
  ∧ (timers s = []
     ∨ ∃ h t0 a, timers s = [(h, (t0 + Z.max 0 wait, a))] ∧ timeout s = Some h
                 ∧ last (history s) = Some (Called t0 a)).

End Debounce.

End debounce.

(** * formValidation *)

(** ** The listeners of [input] *)

(** An [input] element, as far as the listeners read and write it. *)
Record Input := {
  input_type : jsstring;
  input_value : jsstring;
  classList : list jsstring;
  customValidity : jsstring
}.

Definition setCustomValidity (target : Input) (message : jsstring) : Input :=
  {| input_type := input_type target; input_value := input_value target;
     classList := classList target; customValidity := message |}.

Definition set_classList (target : Input) (tokens : list jsstring) : Input :=
  {| input_type := input_type target; input_value := input_value target;
     classList := tokens; customValidity := customValidity target |}.

(** The first listener of [setupRealTimeValidation], on its [e.target]. *)
Definition email_input (target : Input) : Input :=
  if decide (input_type target = code_units "email")
  then
    let isValid := isValidEmail (input_value target) in
    let target :=
      setCustomValidity target
        (if isValid then [] else code_units "Please enter a valid email address") in
    if (0 <? length (input_value target))%nat
    then
      let target :=
        set_classList target (classList_toggle (classList target) (code_units "is-valid") isValid) in
      set_classList target
        (classList_toggle (classList target) (code_units "is-invalid") (negb isValid))
    else
      set_classList target
        (classList_remove (classList_remove (classList target) (code_units "is-valid"))
           (code_units "is-invalid"))
  else target.

(** ** The listener of [submit] *)

Module submission.

(** The children of an element. *)
#[warnings="-register-all"]
Inductive node :=
| Element (tag : jsstring) (attributes : list (jsstring * jsstring)) (children : list node)
| Text (data : jsstring).

(** The text of a node and of the nodes below it. *)
Fixpoint text_of (n : node) : jsstring :=
  match n with
  | Text data => data
  | Element _ _ children =>
      (fix texts (l : list node) : jsstring :=
         match l with
         | [] => []
         | child :: rest => (text_of child ++ texts rest)%list
         end) children
  end.

(** The submit button of the form: [tagName] is [BUTTON] or [INPUT]. *)
Record Button := {
  tagName : jsstring;
  disabled : bool;
  children : list node;
  value : jsstring
}.

(** [submitBtn.textContent] *)
Definition textContent (b : Button) : jsstring :=
  text_of (Element (tagName b) [] (children b)).

(** [submitBtn.textContent = s] *)
Definition set_textContent (b : Button) (s : jsstring) : Button :=
  {| tagName := tagName b; disabled := disabled b;
     children := match s with [] => [] | _ => [Text s] end;
     value := value b |}.

Definition set_value (b : Button) (s : jsstring) : Button :=
  {| tagName := tagName b; disabled := disabled b; children := children b; value := s |}.

Definition set_disabled (b : Button) (d : bool) : Button :=
  {| tagName := tagName b; disabled := d; children := children b; value := value b |}.

(** What the parser makes of the markup assigned to [submitBtn.innerHTML]. *)
Definition processing : list node :=
  [Element (code_units "i") [(code_units "class", code_units "fas fa-spinner fa-spin me-2")] [];
   Text (code_units "Processing...")].

Definition set_innerHTML_processing (b : Button) : Button :=
  {| tagName := tagName b; disabled := disabled b; children := processing; value := value b |}.

(** The form: [dataset.submitting] ([None] while the attribute is absent) and
    what [form.querySelector] finds. *)
Record Form := {
  submitting : option jsstring;
  submitBtn : option Button
}.

(** The page with its form: the timers pending, each with the
    [originalText] its callback closes over, and the times of the submit
    events that the listener let through. *)
Record Page := {
  now : Z;
  form : Form;
  timers : list (Z * jsstring);
  accepted : list Z
}.

Definition fresh (t : Z) (button : option Button) : Page :=
  {| now := t; form := {| submitting := None; submitBtn := button |};
     timers := []; accepted := [] |}.

(** The listener of [submit]. *)
Definition submit (p : Page) : Page :=
  if decide (submitting (form p) = Some (code_units "true"))
  then p                                             (* e.preventDefault(); return *)
  else
    match submitBtn (form p) with
    | Some submitBtn =>
        let originalText :=
          match textContent submitBtn with
          | [] => value submitBtn
          | text => text
          end in
        let submitBtn := set_disabled submitBtn true in
        let submitBtn :=
          if decide (tagName submitBtn = code_units "BUTTON")
          then set_innerHTML_processing submitBtn
          else set_value submitBtn (code_units "Processing...") in
        {| now := now p;
           form := {| submitting := Some (code_units "true"); submitBtn := Some submitBtn |};
           timers := (timers p ++ [(now p + 5000, originalText)])%list;
           accepted := (accepted p ++ [now p])%list |}
    | None =>
        {| now := now p;
           form := {| submitting := Some (code_units "true"); submitBtn := None |};
           timers := timers p;
           accepted := (accepted p ++ [now p])%list |}
    end.

(** The callback of the timer. *)
Definition reset (originalText : jsstring) (f : Form) : Form :=
  {| submitting := Some (code_units "false");
     submitBtn :=
       (λ submitBtn,
          let submitBtn := set_disabled submitBtn false in
          if decide (tagName submitBtn = code_units "BUTTON")
          then set_textContent submitBtn originalText
          else set_value submitBtn originalText) <$> submitBtn f |}.

Inductive event :=
| Submit                           (* a [submit] event on the form *)
| Elapse (t : Z)
| Fire (k : nat).

Definition step (p : Page) (e : event) : Page :=
  match e with
  | Submit => submit p
  | Elapse t =>
      if now p <=? t
      then {| now := t; form := form p; timers := timers p; accepted := accepted p |}
      else p
  | Fire k =>
      match timers p !! k with
      | Some (due, originalText) =>
          if due <=? now p
          then {| now := now p; form := reset originalText (form p);
                  timers := delete k (timers p); accepted := accepted p |}
          else p
      | None => p
      end
  end.

Definition run (es : list event) (p : Page) : Page := foldl step p es.

(** The listener stops the submissions of the form. *)
Definition locked (p : Page) : Prop :=
  submitting (form p) = Some (code_units "true").

(** What holds of a form with a submit button between two events. *)
Definition guarded (p : Page) : Prop :=
  is_Some (submitBtn (form p))
  ∧ (∀ i t1 t2, accepted p !! i = Some t1 → accepted p !! S i = Some t2 → t1 + 5000 ≤ t2)
  ∧ ((locked p ∧ ∃ t originalText, last (accepted p) = Some t
                                   ∧ timers p = [(t + 5000, originalText)])
     ∨ (¬ locked p ∧ timers p = []
        ∧ ∀ t, last (accepted p) = Some t → t + 5000 ≤ now p)).

(** A form without a submit button, once submitted at [t]. *)
Definition stuck (t : Z) (p : Page) : Prop :=
  locked p ∧ submitBtn (form p) = None ∧ timers p = [] ∧ accepted p = [t].

End submission.

(** ** Vocabulary: the widgets and the cache over time *)

Section WeatherVocabulary.

Context {number : Type} `{!JSNumber number}.


(** The cache cannot serve the widget at the time of [w]. *)
Definition unserved (w : World number) (element : Widget) : Prop :=
  cached_payload w (parseFloat (weatherLat element)) (parseFloat (weatherLon element)) = None.

#[global] Instance unserved_dec w element : Decision (unserved w element).
Proof. unfold unserved. apply _. Defined.

End WeatherVocabulary.

(** ** Sample data for the examples of the rest of the page *)

(** Identifiers for [generateId] to return, one per call. *)
Definition nth_id (n : nat) : jsstring := (code_units "id" ++ decimal n)%list.

(** What [formatFileSize] answers on [maxFileSize]. *)
Definition sixteen_MB (bytes : N) : jsstring := code_units "16 MB".

(** [decodeURIComponent] on text without a percent sign. *)
Definition no_escape (s : jsstring) : option jsstring := Some s.

(** The page once [notifications.init] has run. *)
Definition ready_page : notifications.Page :=
  notifications.init
    {| notifications.now := 0; notifications.container := None;
       notifications.state := []; notifications.timers := [];
       notifications.created := 0; notifications.drawn := 0 |}.

Definition empty_gallery : Gallery := {| toasts := ready_page; actions := [] |}.

Definition photo : File :=
  {| file_name := code_units "lake.jpg"; file_type := code_units "image/jpeg";
     file_size := 204800 |}.

Definition scan : File :=
  {| file_name := code_units "map.tiff"; file_type := code_units "image/tiff";
     file_size := 20000000 |}.

Definition two_cookies : list (jsstring * jsstring) :=
  [(code_units "csrftoken", code_units "k3y"); (code_units "theme", code_units "dark")].

(** * Properties *)

Section Properties.

Context {number : Type} `{!JSNumber number}.

Implicit Types (w : World number) (data payload : value number)
  (widget : Widget) (entry : CacheEntry number) (lat lon : number)
  (q : list (nat * settled number)) (s : settled number).

(** ** The cache in front of the network *)

Lemma fetchWeather_hit lat lon w entry :
  cache w !! cacheKey_of lat lon = Some entry →
  clock w - timestamp entry < 300000 →
  fetchWeather lat lon w = (Resolved (data entry), w).
Proof.
  intros Hentry Hage. unfold fetchWeather. rewrite Hentry.
  destruct (Z.ltb_spec (clock w - timestamp entry) 300000); [done | lia].
Qed.

Lemma fetchWeather_stale lat lon w entry :
  cache w !! cacheKey_of lat lon = Some entry →
  300000 ≤ clock w - timestamp entry →
  fetchWeather lat lon w = fetch (url_of lat lon) (cacheKey_of lat lon) w.
Proof.
  intros Hentry Hage. unfold fetchWeather. rewrite Hentry.
  destruct (Z.ltb_spec (clock w - timestamp entry) 300000); [lia | done].
Qed.

Lemma fetchWeather_absent lat lon w :
  cache w !! cacheKey_of lat lon = None →
  fetchWeather lat lon w = fetch (url_of lat lon) (cacheKey_of lat lon) w.
Proof. intros Hnone. unfold fetchWeather. by rewrite Hnone. Qed.

(** The synchronous part of [fetchWeather] reads the cache and the clock and
    writes neither. *)
Lemma fetchWeather_cache lat lon w :
  cache (fetchWeather lat lon w).2 = cache w ∧ clock (fetchWeather lat lon w).2 = clock w.
Proof.
  unfold fetchWeather. destruct (cache w !! _) as [entry|]; [|done].
  by destruct (_ <? _).
Qed.

(** The answer to the fetch that a miss has just issued, when its body is
    JSON, stores the body under the key with the time of the answer. *)
Lemma respond_after_fetch address key w now status payload :
  let w' := respond (length (network w)) (Response status (Some payload))
              (set_clock (fetch address key w).2 now) in
  cache w' = <[key := {| data := payload; timestamp := now |}]> (cache w)
  ∧ clock w' = now.
Proof.
  cbn. unfold respond. cbn.
  rewrite lookup_app_r by lia. rewrite Nat.sub_diag. done.
Qed.

(** ** What promise reactions leave alone *)

(** A reaction writes the widget's content, the console and the queue of
    reactions; nothing else. *)
Lemma run_reaction_frame i s w :
  let w' := run_reaction i s w in
  cache w' = cache w ∧ clock w' = clock w ∧ network w' = network w
  ∧ intervals w' = intervals w ∧ passes w' = passes w.
Proof.
  unfold run_reaction. destruct (document w !! i) as [element|]; [|done].
  destruct s as [payload|e]; [|done].
  by destruct (renderWeather element payload).
Qed.

Lemma drain_for_frame fuel w :
  let w' := drain_for fuel w in
  cache w' = cache w ∧ clock w' = clock w ∧ network w' = network w
  ∧ intervals w' = intervals w ∧ passes w' = passes w.
Proof.
  revert w. induction fuel as [|fuel IH]; intros w; [done|].
  cbn. destruct (microtasks w) as [|[i s] rest] eqn:Hq; [done|].
  destruct (IH (run_reaction i s (set_microtasks w rest))) as (-> & -> & -> & -> & ->).
  apply (run_reaction_frame i s (set_microtasks w rest)).
Qed.

Lemma drain_frame w :
  cache (drain w) = cache w ∧ clock (drain w) = clock w ∧ network (drain w) = network w
  ∧ intervals (drain w) = intervals w ∧ passes (drain w) = passes w.
Proof. apply drain_for_frame. Qed.

Lemma tasks_of_app i q1 q2 : tasks_of i (q1 ++ q2) = (tasks_of i q1 ++ tasks_of i q2)%list.
Proof.
  induction q1 as [|[j s] q1 IH]; [done|]. cbn.
  destruct (decide (j = i)); cbn; by rewrite IH.
Qed.

Lemma drain_for_done fuel w :
  (sum_list_with weight (microtasks w) ≤ fuel)%nat → microtasks (drain_for fuel w) = [].
Proof.
  revert w. induction fuel as [|fuel IH]; intros w Hfuel.
  - cbn. destruct (microtasks w) as [|[i s] rest]; [done|].
    cbn in Hfuel. destruct s; cbn in Hfuel; lia.
  - cbn. destruct (microtasks w) as [|[i s] rest] eqn:Hq; [done|].
    apply IH. cbn in Hfuel. unfold run_reaction. cbn.
    destruct (document w !! i) as [element|]; cbn.
    + destruct s as [payload|e]; cbn in *.
      * destruct (renderWeather element payload); cbn; [lia|].
        rewrite sum_list_with_app. cbn. lia.
      * lia.
    + destruct s; cbn in *; lia.
Qed.

Lemma drain_done w : microtasks (drain w) = [].
Proof. by apply drain_for_done. Qed.

Lemma drain_idle w : microtasks w = [] → drain w = w.
Proof. intros Hq. unfold drain. rewrite Hq. done. Qed.

(** The content of a widget after a checkpoint, when at most one reaction of
    the widget is queued. *)
Lemma drain_for_widget fuel w i element :
  (sum_list_with weight (microtasks w) ≤ fuel)%nat →
  document w !! i = Some element →
  (tasks_of i (microtasks w) = [] → document (drain_for fuel w) !! i = Some element)
  ∧ (∀ s, tasks_of i (microtasks w) = [s] →
       document (drain_for fuel w) !! i = Some (settle_widget element s)).
Proof.
  revert w element. induction fuel as [|fuel IH]; intros w element Hfuel Hel.
  - cbn. destruct (microtasks w) as [|[j s'] rest]; [by split|].
    cbn in Hfuel. destruct s'; cbn in Hfuel; lia.
  - cbn. destruct (microtasks w) as [|[j s'] rest] eqn:Hq; [by split|].
    cbn [tasks_of]. cbn in Hfuel.
    unfold run_reaction. cbn [document set_microtasks microtasks].
    destruct (decide (j = i)) as [->|Hne].
    + rewrite Hel. split; [done|]. intros s [= -> Hrest].
      destruct s as [payload|e]; cbn [settle_widget].
      * cbn in Hfuel. destruct (renderWeather element payload) as [element'|e] eqn:Hr.
        -- apply IH; cbn; [lia | | done].
           apply list_lookup_insert_eq. by eapply lookup_lt_Some.
        -- change (set_innerHTML element unavailable)
             with (settle_widget element (Rejected e)).
           apply IH; cbn.
           ++ rewrite sum_list_with_app. cbn. lia.
           ++ done.
           ++ rewrite tasks_of_app, Hrest. cbn. by rewrite decide_True.
      * cbn in Hfuel. apply IH; cbn; [lia | | done].
        apply list_lookup_insert_eq. by eapply lookup_lt_Some.
    + assert (∀ w', document w' !! i = Some element →
                (sum_list_with weight (microtasks w') ≤ fuel)%nat →
                tasks_of i (microtasks w') = tasks_of i rest →
                (tasks_of i rest = [] → document (drain_for fuel w') !! i = Some element)
                ∧ (∀ s, tasks_of i rest = [s] →
                     document (drain_for fuel w') !! i = Some (settle_widget element s)))
        as Hstep.
      { intros w' Hel' Hfuel' Htasks. rewrite <- Htasks. by apply IH. }
      destruct (document w !! j) as [element_j|] eqn:Hj.
      * destruct s' as [payload|e]; cbn in Hfuel.
        -- destruct (renderWeather element_j payload) as [element'|e].
           ++ apply Hstep; cbn; [|lia|done].
              by rewrite list_lookup_insert_ne.
           ++ apply Hstep; cbn; [done| |].
              ** rewrite sum_list_with_app. cbn. lia.
              ** rewrite tasks_of_app. cbn. rewrite decide_False by done.
                 by rewrite app_nil_r.
        -- apply Hstep; cbn; [|lia|done].
           by rewrite list_lookup_insert_ne.
      * apply Hstep; cbn; [done| |done].
        destruct s'; cbn in Hfuel; lia.
Qed.

Lemma tasks_of_reactions i s (l : list nat) :
  i ∉ l → tasks_of i ((λ j, (j, s)) <$> l) = [].
Proof.
  induction l as [|j l IH]; [done|]. intros Hnotin. cbn.
  rewrite decide_False by (intros ->; apply Hnotin; left).
  apply IH. intros Hin. apply Hnotin. by right.
Qed.

(** ** One task of the event loop *)

Lemma handle_elapse w now : microtasks w = [] → handle w (Elapse now) = set_clock w now.
Proof. intros Hq. unfold handle. cbn [task]. by apply drain_idle. Qed.

Lemma respond_stale w id r :
  (∀ f, network w !! id = Some f → answered f = true) → respond id r w = w.
Proof.
  intros Hstale. unfold respond. destruct (network w !! id) as [f|]; [|done].
  by rewrite (Hstale f).
Qed.

Lemma fetchWeather_then_settlement key r w :
  let w' := (fetchWeather_then key r w).2 in
  (fetchWeather_then key r w).1 = settlement r
  ∧ document w' = document w ∧ network w' = network w ∧ microtasks w' = microtasks w
  ∧ clock w' = clock w ∧ intervals w' = intervals w ∧ passes w' = passes w.
Proof. destruct r as [|status [payload|]]; done. Qed.

Lemma respond_fresh w id f r :
  network w !! id = Some f → answered f = false →
  let w' := respond id r w in
  network w' = <[id := mark_answered f]> (network w)
  ∧ microtasks w' = (microtasks w ++ ((λ j, (j, settlement r)) <$> reactions f))%list
  ∧ document w' = document w
  ∧ cache w' = cache (fetchWeather_then (cacheKey f) r w).2.
Proof.
  intros Hf Hun. unfold respond. rewrite Hf, Hun.
  destruct (fetchWeather_then_settlement (cacheKey f) r w) as (Hs & Hd & Hn & Hq & _).
  destruct (fetchWeather_then (cacheKey f) r w) as [s w1]. cbn in *.
  by rewrite Hs, Hd, Hn, Hq.
Qed.

(** The answer to an unanswered fetch, in a world with no reaction queued:
    the widgets that hang on the fetch are settled, the others keep their
    content. *)
Lemma handle_respond w id f r :
  microtasks w = [] → network w !! id = Some f → answered f = false →
  let w' := handle w (Respond id r) in
  network w' = <[id := mark_answered f]> (network w)
  ∧ microtasks w' = []
  ∧ ∀ i element, document w !! i = Some element →
      (i ∉ reactions f → document w' !! i = Some element)
      ∧ (reactions f = [i] → document w' !! i = Some (settle_widget element (settlement r))).
Proof.
  intros Hq Hf Hun. cbn zeta. unfold handle. cbn [task].
  destruct (respond_fresh w id f r Hf Hun) as (Hn & Hq' & Hd & _).
  rewrite Hq in Hq'. cbn in Hq'.
  destruct (drain_frame (respond id r w)) as (_ & _ & -> & _).
  split; [done|]. split; [apply drain_done|].
  intros i element Hel. rewrite <- Hd in Hel.
  destruct (drain_for_widget (sum_list_with weight (microtasks (respond id r w)))
              (respond id r w) i element (le_n _) Hel) as [Hnone Hone].
  split.
  - intros Hnotin. apply Hnone. rewrite Hq'. by apply tasks_of_reactions.
  - intros Hi. apply Hone. rewrite Hq', Hi. cbn. by rewrite decide_True.
Qed.

Lemma handle_respond_stale w id r :
  microtasks w = [] → (∀ f, network w !! id = Some f → answered f = true) →
  handle w (Respond id r) = w.
Proof.
  intros Hq Hstale. unfold handle. cbn [task].
  rewrite respond_stale by done. by apply drain_idle.
Qed.

(** ** A widget between two refreshes *)

(** A widget at rest keeps its content as long as no interval fires. *)
Lemma at_rest_run es w i element :
  microtasks w = [] → at_rest w i → document w !! i = Some element →
  tick_free es →
  document (run es w) !! i = Some element.
Proof.
  revert w. induction es as [|e es IH]; intros w Hq [Htasks Hrest] Hel Hfree; [done|].
  apply Forall_cons in Hfree as [He Hfree]. cbn [run foldl].
  destruct e as [now|id r|timer]; [| |done].
  - rewrite handle_elapse by done. apply IH; try done.
  - destruct (network w !! id) as [f|] eqn:Hf; cycle 1.
    { rewrite handle_respond_stale; [by apply IH| done |].
      intros f Hf'. congruence. }
    destruct (answered f) eqn:Hans.
    { rewrite handle_respond_stale; [by apply IH| done |].
      intros f' Hf'. congruence. }
    destruct (handle_respond w id f r Hq Hf Hans) as (Hn & Hq' & Hdoc).
    destruct (Hdoc i element Hel) as [Hkeep _].
    apply IH; [done | | by eauto | done].
    split; [by rewrite Hq'|].
    intros id' f'. rewrite Hn. intros Hf' Hun.
    destruct (decide (id' = id)) as [->|Hne].
    + rewrite list_lookup_insert_eq in Hf' by (by eapply lookup_lt_Some).
      injection Hf' as <-. done.
    + rewrite list_lookup_insert_ne in Hf' by done. by eapply Hrest.
Qed.

(** A widget that waits for one fetch ends as the first answer to that fetch
    settles it, whatever else happens in between, as long as no interval
    fires. *)
Lemma awaiting_run es w i id element r :
  microtasks w = [] → awaiting w i id → document w !! i = Some element →
  tick_free es → first_response id es = Some r →
  document (run es w) !! i = Some (settle_widget element (settlement r)).
Proof.
  revert w. induction es as [|e es IH];
    intros w Hq (Htasks & (f & Hf & Hun & Hreact) & Hsole) Hel Hfree Hfirst; [done|].
  apply Forall_cons in Hfree as [He Hfree]. cbn [run foldl].
  destruct e as [now|id' r'|timer]; [| |done]; cbn [first_response] in Hfirst.
  - rewrite handle_elapse by done. apply IH; try done.
    split; [done|]. split; [by exists f|done].
  - destruct (decide (id' = id)) as [->|Hne].
    + injection Hfirst as ->.
      destruct (handle_respond w id f r Hq Hf Hun) as (Hn & Hq' & Hdoc).
      destruct (Hdoc i element Hel) as [_ Hsettle].
      apply at_rest_run; [done | | by apply Hsettle | done].
      split; [by rewrite Hq'|].
      intros id' f'. rewrite Hn. intros Hf' Hun' Hin.
      destruct (decide (id' = id)) as [->|Hne].
      * rewrite list_lookup_insert_eq in Hf' by (by eapply lookup_lt_Some).
        injection Hf' as <-. done.
      * rewrite list_lookup_insert_ne in Hf' by done. apply Hne. by eapply Hsole.
    + destruct (network w !! id') as [f'|] eqn:Hf'; cycle 1.
      { rewrite handle_respond_stale; [|done|intros ?; congruence].
        apply IH; try done. split; [done|]. split; [by exists f|done]. }
      destruct (answered f') eqn:Hans.
      { rewrite handle_respond_stale; [|done|intros ?; congruence].
        apply IH; try done. split; [done|]. split; [by exists f|done]. }
      destruct (handle_respond w id' f' r' Hq Hf' Hans) as (Hn & Hq' & Hdoc).
      destruct (Hdoc i element Hel) as [Hkeep _].
      apply IH; [done | | | done | done].
      * split; [by rewrite Hq'|]. split.
        -- exists f. rewrite Hn. by rewrite list_lookup_insert_ne.
        -- intros id'' f''. rewrite Hn. intros Hf'' Hun'' Hin.
           destruct (decide (id'' = id')) as [->|Hne'].
           ++ rewrite list_lookup_insert_eq in Hf'' by (by eapply lookup_lt_Some).
              injection Hf'' as <-. done.
           ++ rewrite list_lookup_insert_ne in Hf'' by done. by eapply Hsole.
      * apply Hkeep. intros Hin. apply Hne. by eapply Hsole.
Qed.

(** ** One pass of [loadWeatherData] *)

Lemma fetchWeather_cached lat lon w :
  fetchWeather lat lon w =
  match cached_payload w lat lon with
  | Some payload => (Resolved payload, w)
  | None => fetch (url_of lat lon) (cacheKey_of lat lon) w
  end.
Proof.
  unfold fetchWeather, cached_payload.
  destruct (cache w !! cacheKey_of lat lon) as [entry|]; [|done].
  by destruct (_ <? _).
Qed.

(** The callback of [forEach] on one widget: a reaction is queued when the
    cache serves the payload, a fetch is issued otherwise, to which the
    widget's chain is attached. *)
Lemma load_widget_element w j element :
  document w !! j = Some element →
  let lat := parseFloat (weatherLat element) in
  let lon := parseFloat (weatherLon element) in
  load_widget w j =
  match cached_payload w lat lon with
  | Some payload => set_microtasks w (microtasks w ++ [(j, Fulfilled payload)])
  | None =>
      set_network w (network w ++
        [{| url := url_of lat lon; cacheKey := cacheKey_of lat lon;
            reactions := [j]; answered := false |}])
  end.
Proof.
  intros Hel. cbn zeta. unfold load_widget. rewrite Hel, fetchWeather_cached.
  destruct (cached_payload w _ _) as [payload|]; [done|].
  cbn. unfold set_network. cbn. f_equal.
  rewrite <- (Nat.add_0_r (length (network w))). by rewrite alter_app_r.
Qed.

Lemma extends_without_refl a w : extends_without a w w.
Proof.
  repeat split. exists [], []. by rewrite !app_nil_r.
Qed.

Lemma extends_without_trans a w1 w2 w3 :
  extends_without a w1 w2 → extends_without a w2 w3 → extends_without a w1 w3.
Proof.
  intros (Hd & Hc & Ht & Hi & Hp & news & tasks & Hn & Hnews & Hq & Htasks)
         (Hd' & Hc' & Ht' & Hi' & Hp' & news' & tasks' & Hn' & Hnews' & Hq' & Htasks').
  repeat split; try congruence.
  exists (news ++ news')%list, (tasks ++ tasks')%list.
  rewrite Hn', Hn, Hq', Hq, !app_assoc. repeat split.
  - by apply Forall_app.
  - by rewrite tasks_of_app, Htasks, Htasks'.
Qed.

Lemma load_widget_other a w j : j ≠ a → extends_without a w (load_widget w j).
Proof.
  intros Hne. destruct (document w !! j) as [element|] eqn:Hel; cycle 1.
  { unfold load_widget. rewrite Hel. apply extends_without_refl. }
  rewrite (load_widget_element w j element Hel).
  destruct (cached_payload w _ _) as [payload|]; repeat split.
  - exists [], [(j, Fulfilled payload)]. rewrite app_nil_r. repeat split; [done|].
    cbn. by rewrite decide_False.
  - eexists [_], []. rewrite app_nil_r. repeat split.
    apply Forall_singleton. cbn. by intros ->%list_elem_of_singleton.
Qed.

Lemma foldl_load_widget_other a (l : list nat) w :
  a ∉ l → extends_without a w (foldl load_widget w l).
Proof.
  revert w. induction l as [|j l IH]; intros w Hnotin; [apply extends_without_refl|].
  cbn. eapply extends_without_trans.
  - apply (load_widget_other a w j). intros ->. apply Hnotin. left.
  - apply IH. intros Hin. apply Hnotin. by right.
Qed.

(** What a pass does about one widget: everything it adds to the world
    concerns other widgets, but for one reaction (when the cache serves the
    widget) or one fetch (when it does not). *)
Lemma loadWeatherData_widget w a element :
  document w !! a = Some element →
  let lat := parseFloat (weatherLat element) in
  let lon := parseFloat (weatherLon element) in
  let w' := loadWeatherData w in
  document w' = document w ∧ cache w' = cache w ∧ clock w' = clock w
  ∧ intervals w' = intervals w ∧ passes w' = S (passes w)
  ∧ ∃ news1 news2 tasks1 tasks2,
      Forall (λ f, a ∉ reactions f) news1 ∧ Forall (λ f, a ∉ reactions f) news2
      ∧ tasks_of a tasks1 = [] ∧ tasks_of a tasks2 = []
      ∧ match cached_payload w lat lon with
        | Some payload =>
            network w' = (network w ++ news1 ++ news2)%list
            ∧ microtasks w' =
              (microtasks w ++ tasks1 ++ [(a, Fulfilled payload)] ++ tasks2)%list
        | None =>
            network w' =
              (network w ++ news1 ++
                [{| url := url_of lat lon; cacheKey := cacheKey_of lat lon;
                    reactions := [a]; answered := false |}] ++ news2)%list
            ∧ microtasks w' = (microtasks w ++ tasks1 ++ tasks2)%list
        end.
Proof.
  intros Hel. cbn zeta. unfold loadWeatherData.
  pose proof (lookup_lt_Some _ _ _ Hel) as Hlt.
  replace (length (document w)) with (a + S (length (document w) - S a))%nat by lia.
  rewrite seq_app. change (0 + a)%nat with a. cbn [seq]. rewrite foldl_app. cbn [foldl].
  set (w0 := set_passes w (S (passes w))).
  set (wA := foldl load_widget w0 (seq 0 a)).
  destruct (foldl_load_widget_other a (seq 0 a) w0)
    as (Hd & Hc & Ht & Hi & Hp & news1 & tasks1 & Hn & Hnews1 & Hq & Htasks1).
  { rewrite elem_of_seq. lia. }
  fold wA in Hd, Hc, Ht, Hi, Hp, Hn, Hq.
  set (wa := load_widget wA a).
  destruct (foldl_load_widget_other a (seq (S a) (length (document w) - S a)) wa)
    as (Hd' & Hc' & Ht' & Hi' & Hp' & news2 & tasks2 & Hn' & Hnews2 & Hq' & Htasks2).
  { rewrite elem_of_seq. lia. }
  assert (document wA !! a = Some element) as HelA by (by rewrite Hd).
  assert (cached_payload wA (parseFloat (weatherLat element)) (parseFloat (weatherLon element))
          = cached_payload w (parseFloat (weatherLat element)) (parseFloat (weatherLon element)))
    as Hcached.
  { unfold cached_payload. by rewrite Hc, Ht. }
  pose proof (load_widget_element wA a element HelA) as Hwa. cbn zeta in Hwa.
  fold wa in Hwa. rewrite Hcached in Hwa.
  rewrite Hd', Hc', Ht', Hi', Hp'.
  destruct (cached_payload w _ _) as [payload|]; rewrite Hwa in *; cbn in *.
  - repeat split; try congruence.
    exists news1, news2, tasks1, tasks2. repeat split; try done.
    + by rewrite Hn', Hn, <- app_assoc.
    + by rewrite Hq', Hq, <- !app_assoc.
  - repeat split; try congruence.
    exists news1, news2, tasks1, tasks2. repeat split; try done.
    + by rewrite Hn', Hn, <- !app_assoc.
    + by rewrite Hq', Hq, <- app_assoc.
Qed.

Lemma loadWeatherData_frame w :
  let w' := loadWeatherData w in
  document w' = document w ∧ cache w' = cache w ∧ clock w' = clock w
  ∧ intervals w' = intervals w ∧ passes w' = S (passes w).
Proof.
  cbn zeta. unfold loadWeatherData.
  destruct (foldl_load_widget_other (length (document w)) (seq 0 (length (document w)))
              (set_passes w (S (passes w))))
    as (Hd & Hc & Ht & Hi & Hp & _); [|done].
  rewrite elem_of_seq. lia.
Qed.


(** A pass over a widget the cache serves settles the widget with the cached
    payload before the task ends. *)
Lemma pass_hit w a element payload :
  microtasks w = [] → document w !! a = Some element →
  cached_payload w (parseFloat (weatherLat element)) (parseFloat (weatherLon element))
  = Some payload →
  let w' := drain (loadWeatherData w) in
  microtasks w' = []
  ∧ document w' !! a = Some (settle_widget element (Fulfilled payload))
  ∧ network w' = network (loadWeatherData w).
Proof.
  intros Hq Hel Hhit. cbn zeta.
  destruct (loadWeatherData_widget w a element Hel)
    as (Hd & _ & _ & _ & _ & news1 & news2 & tasks1 & tasks2
        & Hnews1 & Hnews2 & Htasks1 & Htasks2 & Hshape).
  rewrite Hhit, Hq in Hshape. destruct Hshape as [Hn Hq'].
  set (w1 := loadWeatherData w) in *.
  destruct (drain_for_widget (sum_list_with weight (microtasks w1)) w1 a element (le_n _))
    as [_ Hone]; [by rewrite Hd|].
  destruct (drain_frame w1) as (_ & _ & Hnet & _).
  split; [apply drain_done|]. split; [|done].
  apply Hone. rewrite Hq'. cbn.
  rewrite tasks_of_app, Htasks1. cbn. by rewrite decide_True, Htasks2.
Qed.

Lemma run_reaction_set_intervals i s w l :
  run_reaction i s (set_intervals w l) = set_intervals (run_reaction i s w) l.
Proof.
  unfold run_reaction. cbn. destruct (document w !! i) as [element|]; [|done].
  destruct s as [payload|e]; [|done].
  by destruct (renderWeather element payload).
Qed.

Lemma drain_for_set_intervals fuel w l :
  drain_for fuel (set_intervals w l) = set_intervals (drain_for fuel w) l.
Proof.
  revert w. induction fuel as [|fuel IH]; intros w; [done|].
  cbn. destruct (microtasks w) as [|[i s] rest]; [done|].
  rewrite <- IH. f_equal. apply (run_reaction_set_intervals i s (set_microtasks w rest) l).
Qed.

(** Registering the interval and running the reactions commute: the pass of
    [DOMContentLoaded] is the pass of a firing, but for the interval. *)
Lemma DOMContentLoaded_pass w :
  DOMContentLoaded w =
  set_intervals (drain (loadWeatherData w))
    (intervals (loadWeatherData w) ++ [weatherUpdateInterval]).
Proof. apply drain_for_set_intervals. Qed.

Lemma pass_of_fields w w' :
  pass_of w w' →
  document w' = document (drain (loadWeatherData w))
  ∧ network w' = network (drain (loadWeatherData w))
  ∧ microtasks w' = microtasks (drain (loadWeatherData w))
  ∧ cache w' = cache (drain (loadWeatherData w)).
Proof. intros [->| ->]; [by rewrite DOMContentLoaded_pass | done]. Qed.


(** ** Conversions *)

(** Binding two computations: the case analysis used throughout below. *)
Lemma bind_Normal {A B} (c : completion A) (k : A → completion B) (b : B) :
  c ≫= k = Normal b → ∃ a, c = Normal a ∧ k a = Normal b.
Proof. destruct c as [a|e]; cbn; intros H; [eauto | discriminate]. Qed.

Lemma bind_Throw {A B} (c : completion A) (k : A → completion B) (e : error) :
  c ≫= k = Throw e → c = Throw e ∨ ∃ a, c = Normal a ∧ k a = Throw e.
Proof. destruct c as [a|e']; cbn; intros H; [right; eauto | left; by injection H as ->]. Qed.

(** Every exception of the conversions is a [TypeError]. *)
Lemma ToString_error (v : value number) e : ToString v = Throw e → e = TypeError.
Proof.
  revert e. induction v as [| |b|n|text|elements IH|properties _] using value_induction;
    intros e; cbn; try done.
  - induction IH as [|x l Hx _ IHl]; [done|].
    intros [Hthrow|(sx & _ & Hrest)]%bind_Throw.
    + destruct x; try done; by apply Hx.
    + destruct l as [|y l']; [done|].
      apply bind_Throw in Hrest as [Hrest|(r & _ & Hr)]; [by apply IHl | done].
  - destruct (GetOwnProperty properties "toString"); [by intros [= <-] | done].
Qed.

Lemma ToString_primitive (v : value number) :
  primitive v = true → ∃ text, ToString v = Normal text.
Proof. destruct v; cbn; try done; eauto. Qed.

Lemma Get_error (v : value number) k e : Get v k = Throw e → e = TypeError.
Proof. destruct v; cbn; try done; by intros [= <-]. Qed.

Lemma substitution_error (v : value number) k e : substitution v k = Throw e → e = TypeError.
Proof.
  unfold substitution. intros [H|(x & _ & H)]%bind_Throw.
  - by eapply Get_error.
  - by eapply ToString_error.
Qed.

Lemma substitution_primitive names (v : value number) k :
  has_primitive names v = true → k ∈ names → ∃ text, substitution v k = Normal text.
Proof.
  destruct v as [| | | | | |properties]; try done. cbn. intros Hall Hin.
  apply ToString_primitive.
  rewrite forallb_forall in Hall. apply Hall. by apply list_elem_of_In.
Qed.

(** ** What [renderWeather] throws, and when it does not *)

Create HintDb throws.

(** Membership in a list written out. *)
Ltac listed := repeat first [apply list_elem_of_here | apply list_elem_of_further].

#[local] Hint Resolve ToString_error Get_error substitution_error : throws.

(** Case analysis on a sequence of bindings that ends in an exception. *)
Ltac unbind H :=
  repeat (apply bind_Throw in H as [H|(? & _ & H)]; [by eauto with throws|]).

Lemma GreaterThanZero_error (v : value number) e : GreaterThanZero v = Throw e → e = TypeError.
Proof. destruct v; unfold GreaterThanZero; try done; intros H; by unbind H. Qed.
#[local] Hint Resolve GreaterThanZero_error : throws.

Lemma forecast_length_gt_zero_error (v : value number) e :
  forecast_length_gt_zero v = Throw e → e = TypeError.
Proof. destruct v; unfold forecast_length_gt_zero; try done; try (by intros [= <-]). eauto with throws. Qed.
#[local] Hint Resolve forecast_length_gt_zero_error : throws.

Lemma forecast_day_error (day : value number) e : forecast_day day = Throw e → e = TypeError.
Proof. unfold forecast_day. intros H. by unbind H. Qed.
#[local] Hint Resolve forecast_day_error : throws.

Lemma forecast_days_error (forecast : value number) e :
  forecast_days forecast = Throw e → e = TypeError.
Proof.
  destruct forecast as [| | | | |elements|]; cbn; try (by intros [= <-]).
  induction elements as [|x l IH]; cbn; [done|]. intros H. by unbind H.
Qed.
#[local] Hint Resolve forecast_days_error : throws.

Lemma weather_markup_error (current forecast : value number) e :
  weather_markup current forecast = Throw e → e = TypeError.
Proof.
  unfold weather_markup. intros H. unbind H.
  apply bind_Throw in H as [H|(? & _ & H)]; [|done].
  destruct x5; [|done]. by unbind H.
Qed.
#[local] Hint Resolve weather_markup_error : throws.

Lemma renderWeather_error widget data e : renderWeather widget data = Throw e → e = TypeError.
Proof.
  unfold renderWeather. destruct (ToBoolean data); cbn [negb]; [|done].
  intros H. apply bind_Throw in H as [H|(err & _ & H)]; [by eauto with throws|].
  destruct (ToBoolean err); [done|]. by unbind H.
Qed.


Lemma renderWeather_marker widget data :
  error_marker data → renderWeather widget data = Normal (set_innerHTML widget unavailable).
Proof.
  unfold renderWeather. intros [Hfalsy|(err & Hget & Herr)].
  - by rewrite Hfalsy.
  - destruct (ToBoolean data); [|done]. cbn [negb]. rewrite Hget. cbn. by rewrite Herr.
Qed.

Lemma forecast_day_well_formed (day : value number) :
  has_primitive ["date"; "icon"; "temp_max"; "temp_min"] day = true →
  ∃ text, forecast_day day = Normal text.
Proof.
  intros Hday. unfold forecast_day.
  destruct (substitution_primitive _ day "date" Hday) as [? ->]; [listed|].
  destruct (substitution_primitive _ day "icon" Hday) as [? ->]; [listed|].
  destruct (substitution_primitive _ day "temp_max" Hday) as [? ->]; [listed|].
  destruct (substitution_primitive _ day "temp_min" Hday) as [? ->]; [listed|].
  cbn. eauto.
Qed.

Lemma map_join_well_formed (days : list (value number)) :
  forallb (has_primitive ["date"; "icon"; "temp_max"; "temp_min"]) days = true →
  ∃ text, map_join forecast_day days = Normal text.
Proof.
  induction days as [|day days IH]; cbn; [eauto|].
  intros [Hday Hdays]%andb_prop.
  destruct (forecast_day_well_formed day Hday) as [? ->].
  destruct (IH Hdays) as [? ->]. cbn. eauto.
Qed.

(** A payload of the documented shape is rendered: the call returns and the
    widget holds markup built from the payload. *)
Lemma renderWeather_well_formed widget data :
  well_formed data = true →
  ∃ markup, renderWeather widget data = Normal (set_innerHTML widget markup).
Proof.
  destruct data as [| | | | | |properties]; try done. cbn [well_formed].
  intros [[Herr Hcurrent]%andb_prop Hforecast]%andb_prop.
  unfold renderWeather. cbn [ToBoolean negb Get]. cbn [mbind completion_bind].
  apply negb_true_iff in Herr. rewrite Herr.
  set (current := default Undefined (GetOwnProperty properties "current")) in *.
  assert (∀ forecast, (∃ b, forecast_length_gt_zero forecast = Normal b
                        ∧ (b = true → ∃ text, forecast_days forecast = Normal text)) →
                      ∃ markup, weather_markup current forecast = Normal markup) as Hmarkup.
  { intros forecast (b & Hlen & Hdays). unfold weather_markup.
    destruct (substitution_primitive _ current "icon" Hcurrent) as [? ->]; [listed|].
    destruct (substitution_primitive _ current "description" Hcurrent) as [? ->]; [listed|].
    destruct (substitution_primitive _ current "temp" Hcurrent) as [? ->]; [listed|].
    destruct (substitution_primitive _ current "humidity" Hcurrent) as [? ->]; [listed|].
    destruct (substitution_primitive _ current "wind_speed" Hcurrent) as [? ->]; [listed|].
    cbn. rewrite Hlen. cbn. destruct b; cbn; [|eauto].
    destruct (Hdays eq_refl) as [? ->]. cbn. eauto. }
  destruct (GetOwnProperty properties "forecast") as [f|]; cbn [from_option id].
  - destruct f as [| | | | |days|]; try done. cbn [ToBoolean].
    destruct (Hmarkup (Arr days)) as [markup ->]; [|cbn; eauto].
    eexists. split; [done|]. intros _. by apply map_join_well_formed.
  - cbn [ToBoolean]. destruct (Hmarkup (Arr [])) as [markup ->]; [|cbn; eauto].
    exists false. by split.
Qed.

(** ** The markup [renderWeather] writes *)

Lemma substitution_printed (v : value number) k text :
  substitution v k = Normal text → text = printed (member v k).
Proof.
  unfold substitution. intros (x & Hget & Hx)%bind_Normal.
  assert (x = member v k) as -> by (destruct v; cbn in Hget |- *; congruence).
  unfold printed. by rewrite Hx.
Qed.

Lemma forecast_day_printed (day : value number) text :
  forecast_day day = Normal text → text = day_markup day.
Proof.
  unfold forecast_day. intros H.
  apply bind_Normal in H as (date & ->%substitution_printed & H).
  apply bind_Normal in H as (icon & ->%substitution_printed & H).
  apply bind_Normal in H as (temp_max & ->%substitution_printed & H).
  apply bind_Normal in H as (temp_min & ->%substitution_printed & H).
  by injection H as <-.
Qed.

Lemma map_join_printed (days : list (value number)) text :
  map_join forecast_day days = Normal text →
  text = foldr (λ d rest, day_markup d +:+ rest) "" days.
Proof.
  revert text. induction days as [|day days IH]; intros text; cbn [map_join foldr].
  - by intros [= <-].
  - intros H. apply bind_Normal in H as (s & ->%forecast_day_printed & H).
    apply bind_Normal in H as (r & Hr & H). injection H as <-. f_equal. by apply IH.
Qed.

Lemma weather_markup_printed (current forecast : value number) markup :
  weather_markup current forecast = Normal markup →
  markup =
    current_text_0 +:+ printed (member current "icon")
    +:+ current_text_1 +:+ printed (member current "description")
    +:+ current_text_2 +:+ printed (member current "temp")
    +:+ current_text_3 +:+ printed (member current "description")
    +:+ current_text_4 +:+ printed (member current "humidity")
    +:+ current_text_5 +:+ printed (member current "wind_speed")
    +:+ current_text_6 +:+ forecast_markup forecast +:+ template_end.
Proof.
  unfold weather_markup. intros H.
  apply bind_Normal in H as (icon & ->%substitution_printed & H).
  apply bind_Normal in H as (alt & ->%substitution_printed & H).
  apply bind_Normal in H as (temp & ->%substitution_printed & H).
  apply bind_Normal in H as (description & ->%substitution_printed & H).
  apply bind_Normal in H as (humidity & ->%substitution_printed & H).
  apply bind_Normal in H as (wind_speed & ->%substitution_printed & H).
  apply bind_Normal in H as (some & Hsome & H).
  apply bind_Normal in H as (days & Hdays & H).
  injection H as <-. do 13 f_equal.
  destruct some.
  - apply bind_Normal in Hdays as (body & Hbody & Hdays). injection Hdays as <-.
    destruct forecast as [| | | | |elements|]; try done.
    cbn [forecast_days] in Hbody. apply map_join_printed in Hbody as ->.
    destruct elements as [|day days']; [done|]. reflexivity.
  - injection Hdays as <-.
    destruct forecast as [| | | | |elements|]; try done.
    by destruct elements.
Qed.

(** What [renderWeather] writes when it returns on a payload that is no
    error marker: the weather markup of the payload. *)
Lemma renderWeather_markup widget data widget' :
  ¬ error_marker data →
  renderWeather widget data = Normal widget' →
  widget' = set_innerHTML widget (markup_of data).
Proof.
  intros Hmarker. unfold renderWeather.
  destruct (ToBoolean data) eqn:Htruthy; cbn [negb]; [|destruct Hmarker; by left].
  intros (err & Herr & H)%bind_Normal.
  destruct (ToBoolean err) eqn:Hfalsy; [destruct Hmarker; right; eauto|].
  apply bind_Normal in H as (current & Hcurrent & H).
  apply bind_Normal in H as (f & Hf & H).
  apply bind_Normal in H as (markup & Hmarkup & H).
  injection H as <-. f_equal.
  assert (current = member data "current") as ->
    by (destruct data; cbn in Hcurrent |- *; congruence).
  assert (f = member data "forecast") as ->
    by (destruct data; cbn in Hf |- *; congruence).
  rewrite (weather_markup_printed _ _ _ Hmarkup). unfold markup_of. cbn zeta.
  do 13 f_equal.
  destruct (ToBoolean (member data "forecast")) eqn:Hforecast; [done|].
  destruct (member data "forecast") as [| | | |text|elements|]; try done.
Qed.

(** The weather markup is never the fallback paragraph. *)
Lemma markup_of_not_unavailable data : markup_of data ≠ unavailable.
Proof. unfold markup_of. cbn zeta. intros H. vm_compute in H. discriminate. Qed.

(** A payload of the documented shape is no error marker. *)
Lemma well_formed_no_marker data : well_formed data = true → ¬ error_marker data.
Proof.
  destruct data as [| | | | | |properties]; try done. cbn [well_formed].
  intros [[Herr _]%andb_prop _]%andb_prop [Hfalsy|(err & [= <-] & Htruthy)]; [done|].
  by rewrite Htruthy in Herr.
Qed.

Lemma renderWeather_documented widget data :
  well_formed data = true →
  renderWeather widget data = Normal (set_innerHTML widget (markup_of data)).
Proof.
  intros Hshape. destruct (renderWeather_well_formed widget data Hshape) as [markup Hr].
  rewrite Hr. f_equal.
  apply (renderWeather_markup widget data); [by apply well_formed_no_marker|exact Hr].
Qed.

(** [error_marker] can be told. *)
Lemma error_marker_cases data : error_marker data ∨ ¬ error_marker data.
Proof.
  unfold error_marker. destruct (ToBoolean data) eqn:Htruthy; [|by left; left].
  destruct (Get data "error") as [err|e] eqn:Hget.
  - destruct (ToBoolean err) eqn:Herr; [left; right; eauto|].
    right. intros [?|(err' & [= <-] & ?)]; congruence.
  - right. intros [?|(err' & ? & _)]; congruence.
Qed.

(** ** The schedule of refreshes *)

Lemma handle_schedule w e :
  intervals (handle w e) = intervals w
  ∧ passes (handle w e) =
    match e with
    | Tick timer =>
        match intervals w !! timer with
        | Some _ => S (passes w)
        | None => passes w
        end
    | _ => passes w
    end.
Proof.
  unfold handle. destruct (drain_frame (task e w)) as (_ & _ & _ & -> & ->).
  destruct e as [now|id r|timer]; cbn [task].
  - done.
  - unfold respond. destruct (network w !! id) as [f|]; [|done].
    destruct (answered f); [done|].
    destruct (fetchWeather_then_settlement (cacheKey f) r w) as (_ & _ & _ & _ & _ & Hi & Hp).
    by destruct (fetchWeather_then (cacheKey f) r w).
  - destruct (intervals w !! timer); [|done].
    by destruct (loadWeatherData_frame w) as (_ & _ & _ & -> & ->).
Qed.

Lemma run_schedule es w :
  intervals w = [weatherUpdateInterval] →
  intervals (run es w) = [weatherUpdateInterval]
  ∧ passes (run es w) = (passes w + ticks_of 0 es)%nat.
Proof.
  revert w. induction es as [|e es IH]; intros w Hi; cbn [run foldl ticks_of].
  - split; [done|lia].
  - destruct (handle_schedule w e) as [Hi' Hp']. rewrite Hi in Hi'.
    destruct (IH (handle w e) Hi') as [Hi'' Hp'']. split; [done|].
    fold (run es (handle w e)). rewrite Hp'', Hp'.
    destruct e as [t|id r|[|timer]]; cbn [ticks_of]; rewrite ?Hi; cbn;
      repeat case_decide; try lia.
    destruct timer; cbn; lia.
Qed.

(** ** What the events keep *)












(** ** Properties of the specification *)

(** C1. When the cache holds an entry for the key of [(lat, lon)] whose
    timestamp is less than 300000 ms before the current time, [fetchWeather]
    resolves with the payload of that entry and calls [fetch] not at all (the
    world is unchanged); a second call with the same arguments, made while
    that entry is in the cache and still within the TTL, resolves with the
    same payload, again without a fetch. The same holds when the first call
    missed: once its fetch has been answered with a payload, a second call
    within the TTL of that answer resolves with that payload from the cache. *)
Theorem fetchWeather_cache_hit lat lon w entry :
  cache w !! cacheKey_of lat lon = Some entry →
  clock w - timestamp entry < 300000 →
  fetchWeather lat lon w = (Resolved (data entry), w)
  ∧ (∀ now', now' - timestamp entry < 300000 →
       fetchWeather lat lon (set_clock (fetchWeather lat lon w).2 now')
       = (Resolved (data entry), set_clock w now'))
  ∧ (∀ w', cache w' !! cacheKey_of lat lon = Some entry →
       clock w' - timestamp entry < 300000 →
       (fetchWeather lat lon w').1 = Resolved (data entry)
       ∧ network (fetchWeather lat lon w').2 = network w')
  ∧ (∀ w0 status payload t1 t2,
       (fetchWeather lat lon w0).1 = Awaiting (length (network w0)) →
       t2 - t1 < 300000 →
       let w1 := set_clock (fetchWeather lat lon w0).2 t1 in
       let answered := fetchWeather_then (cacheKey_of lat lon) (Response status (Some payload)) w1 in
       answered.1 = Fulfilled payload
       ∧ respond (length (network w0)) (Response status (Some payload)) w1
         = set_network answered.2
             (<[length (network w0) := mark_answered
                  {| url := url_of lat lon; cacheKey := cacheKey_of lat lon;
                     reactions := []; answered := false |}]> (network w1))
       ∧ fetchWeather lat lon (set_clock answered.2 t2)
         = (Resolved payload, set_clock answered.2 t2)).
Proof.
  intros Hentry Hage.
  rewrite (fetchWeather_hit lat lon w entry Hentry Hage). cbn [fst snd].
  split; [done|]. split; [|split].
  - intros now' Hage'. by apply fetchWeather_hit.
  - intros w' Hentry' Hage'. by rewrite (fetchWeather_hit lat lon w' entry Hentry' Hage').
  - intros w0 status payload t1 t2 Hmiss Ht.
    assert (fetchWeather lat lon w0 = fetch (url_of lat lon) (cacheKey_of lat lon) w0) as ->.
    { revert Hmiss. unfold fetchWeather.
      destruct (cache w0 !! _) as [e|]; [|done].
      by destruct (_ <? _). }
    repeat split.
    + unfold respond. cbn. rewrite lookup_app_r by lia. rewrite Nat.sub_diag. cbn.
      unfold set_microtasks, set_network. cbn. by rewrite app_nil_r.
    + apply fetchWeather_hit with
        (entry := {| data := payload; timestamp := t1 |}); cbn; [|lia].
      apply lookup_insert_eq.
Qed.

(** C2 (as amended). [fetchWeather] rejects exactly when the network gives no
    response or the body of the response is not JSON; the status of the
    response is not read, so a response with any status whose body is JSON
    fulfils the promise with that body. When the promise is rejected, the
    [.catch] of [loadWeatherData] leaves the widget showing
    [Weather data unavailable]. *)
Theorem fetchWeather_rejects key r w :
  ((∃ e, (fetchWeather_then key r w).1 = Rejected e) ↔ failed r)
  ∧ (∀ status payload,
       (fetchWeather_then key (Response status (Some payload)) w).1 = Fulfilled payload)
  ∧ (∀ w' i id element es,
       failed r → microtasks w' = [] → awaiting w' i id →
       document w' !! i = Some element → tick_free es →
       first_response id es = Some r →
       document (run es w') !! i = Some (set_innerHTML element unavailable)).
Proof.
  split; [|split].
  - split.
    + intros [e He]. destruct r as [|status [payload|]]; [by left | done | right; eauto].
    + intros [->|[status ->]]; cbn; eauto.
  - done.
  - intros w' i id element es Hfailed Hq Hwait Hel Hfree Hfirst.
    rewrite (awaiting_run es w' i id element r Hq Hwait Hel Hfree Hfirst).
    by destruct Hfailed as [->|[status ->]].
Qed.

(** C3. A cached entry is served exactly when [now - timestamp < 300000].
    When the entry for the key is older, the call issues one [fetch] (for
    [/api/weather/lat/lon]) and leaves the cache as it is; when that fetch is
    answered with a JSON body, the entry of the key is overwritten with the
    body and the time of the answer. *)
Theorem cache_expiry lat lon w entry now status payload :
  cache w !! cacheKey_of lat lon = Some entry →
  300000 ≤ clock w - timestamp entry →
  let key := cacheKey_of lat lon in
  let id := length (network w) in
  let w1 := (fetchWeather lat lon w).2 in
  let w2 := respond id (Response status (Some payload)) (set_clock w1 now) in
  (∀ w' v, (fetchWeather lat lon w').1 = Resolved v ↔
     ∃ e, cache w' !! key = Some e ∧ clock w' - timestamp e < 300000 ∧ v = data e)
  ∧ (fetchWeather lat lon w).1 = Awaiting id
  ∧ network w1 = (network w ++
      [{| url := url_of lat lon; cacheKey := key; reactions := []; answered := false |}])%list
  ∧ cache w1 = cache w
  ∧ cache w2 = <[key := {| data := payload; timestamp := now |}]> (cache w)
  ∧ length (network w2) = S (length (network w)).
Proof.
  intros Hentry Hage. cbn zeta.
  rewrite (fetchWeather_stale lat lon w entry Hentry Hage).
  split; [|repeat split].
  - intros w' v. unfold fetchWeather.
    destruct (cache w' !! cacheKey_of lat lon) as [e|] eqn:He.
    + destruct (Z.ltb_spec (clock w' - timestamp e) 300000) as [Hlt|Hge]; cbn.
      * split; [intros [= <-]; by exists e | intros (e' & [= <-] & _ & ->); done].
      * split; [done | intros (e' & [= <-] & ? & _); lia].
    + cbn. split; [done | by intros (e' & ? & _)].
  - apply (respond_after_fetch (url_of lat lon) (cacheKey_of lat lon) w now status payload).
  - cbn. unfold respond. cbn. rewrite lookup_app_r by lia. rewrite Nat.sub_diag. cbn.
    rewrite length_insert, length_app. cbn. lia.
Qed.

(** C4 (as amended). [renderWeather] does not throw on a missing payload or
    on one that carries a truthy [error]: the widget then shows
    [Weather data unavailable]. It does not throw on a payload of the
    documented shape either, and writes the weather markup of the payload,
    which is never the fallback paragraph. On any other payload it does one
    of two things. Either it throws a [TypeError] before the widget is
    touched, as it does whenever [current] is missing, undefined or null (so
    on every payload that is not an object); the chain of [loadWeatherData]
    catches the exception, and the widget then shows
    [Weather data unavailable]. Or it returns and writes the weather markup
    all the same, with [undefined] for what the payload lacks, as it does
    whenever [current] is a boolean, a number or a string and there is no
    forecast: the widget then shows no fallback. *)
Theorem renderWeather_outcomes widget data :
  (error_marker data → renderWeather widget data = Normal (set_innerHTML widget unavailable))
  ∧ (well_formed data = true →
       renderWeather widget data = Normal (set_innerHTML widget (markup_of data)))
  ∧ markup_of data ≠ unavailable
  ∧ (error_marker data ∧ renderWeather widget data = Normal (set_innerHTML widget unavailable)
     ∨ ¬ error_marker data
       ∧ (renderWeather widget data = Normal (set_innerHTML widget (markup_of data))
          ∨ renderWeather widget data = Throw TypeError))
  ∧ (¬ error_marker data →
     member data "current" = Undefined ∨ member data "current" = Null →
     renderWeather widget data = Throw TypeError)
  ∧ (¬ error_marker data →
     (∃ b, member data "current" = Bool b) ∨ (∃ n, member data "current" = Num n)
     ∨ (∃ text, member data "current" = Str text) →
     ToBoolean (member data "forecast") = false →
     markup_of data = undefined_markup
     ∧ renderWeather widget data = Normal (set_innerHTML widget undefined_markup))
  ∧ (∀ w i, microtasks w = [] → document w !! i = Some widget →
       let w' := drain (set_microtasks w [(i, Fulfilled data)]) in
       microtasks w' = []
       ∧ (∀ widget', renderWeather widget data = Normal widget' →
            document w' !! i = Some widget')
       ∧ (∀ e, renderWeather widget data = Throw e →
            document w' !! i = Some (set_innerHTML widget unavailable))).
Proof.
  split; [apply renderWeather_marker|]. split; [apply renderWeather_documented|].
  split; [apply markup_of_not_unavailable|]. split; [|split; [|split]].
  - destruct (error_marker_cases data) as [Hmarker|Hclear].
    + left. split; [done|]. by apply renderWeather_marker.
    + right. split; [done|].
      destruct (renderWeather widget data) as [widget'|e] eqn:Hr.
      * left. by rewrite (renderWeather_markup widget data widget' Hclear Hr).
      * right. by rewrite (renderWeather_error widget data e Hr).
  - intros Hclear Hcurrent. unfold renderWeather.
    destruct (ToBoolean data) eqn:Htruthy; cbn [negb]; [|destruct Hclear; by left].
    destruct (Get data "error") as [err|e] eqn:Herr; [|by destruct data].
    cbn [mbind completion_bind].
    destruct (ToBoolean err) eqn:Hfalsy; [destruct Hclear; right; eauto|].
    assert (Get data "current" = Normal (member data "current")) as ->
      by (by destruct data).
    cbn [mbind completion_bind].
    assert (Get data "forecast" = Normal (member data "forecast")) as ->
      by (by destruct data).
    cbn [mbind completion_bind].
    by destruct Hcurrent as [-> | ->].
  - intros Hclear Hcurrent Hforecast.
    assert (renderWeather widget data = Normal (set_innerHTML widget undefined_markup)) as Hr.
    { unfold renderWeather.
      destruct (ToBoolean data) eqn:Htruthy; cbn [negb]; [|destruct Hclear; by left].
      destruct (Get data "error") as [err|e] eqn:Herr; [|by destruct data].
      cbn [mbind completion_bind].
      destruct (ToBoolean err) eqn:Hfalsy; [destruct Hclear; right; eauto|].
      assert (Get data "current" = Normal (member data "current")) as ->
        by (by destruct data).
      cbn [mbind completion_bind].
      assert (Get data "forecast" = Normal (member data "forecast")) as ->
        by (by destruct data).
      cbn [mbind completion_bind]. rewrite Hforecast.
      by destruct Hcurrent as [[b ->] | [[n ->] | [text ->]]]. }
    split; [|exact Hr].
    pose proof (renderWeather_markup widget data _ Hclear Hr) as Heq.
    apply (f_equal innerHTML) in Heq. by cbn in Heq.
  - intros w i Hq Hel. cbn zeta. split; [apply drain_done|].
    destruct (drain_for_widget
                (sum_list_with weight (microtasks (set_microtasks w [(i, Fulfilled data)])))
                (set_microtasks w [(i, Fulfilled data)]) i widget (le_n _) Hel)
      as [_ Hone].
    specialize (Hone (Fulfilled data)). cbn in Hone. rewrite decide_True in Hone by done.
    specialize (Hone eq_refl). fold (drain (set_microtasks w [(i, Fulfilled data)])) in Hone.
    split; intros ? Hr; rewrite Hr in Hone; exact Hone.
Qed.

(** C5. [renderWeather(widget, null)] and [renderWeather(widget, {error: true})]
    return normally, and the widget's content is then
    [<p class="text-muted">Weather data unavailable</p>]. *)
Theorem renderWeather_no_payload widget :
  renderWeather widget Null = Normal (set_innerHTML widget unavailable)
  ∧ renderWeather widget (Obj [("error", Bool true)])
    = Normal (set_innerHTML widget unavailable).
Proof. split; reflexivity. Qed.


(** C7. The cache key is computed from the two numbers alone: two widgets
    whose attributes are spelt differently but parse to the same numbers
    address the same cache entry, so that [fetchWeather] behaves alike for
    both in every world, and what a call for one stores a call for the other
    finds. *)
Theorem cache_key_stable (latA lonA latB lonB : string) :
  parseFloat latA = parseFloat latB →
  parseFloat lonA = parseFloat lonB →
  let keyA := cacheKey_of (parseFloat latA) (parseFloat lonA) in
  let keyB := cacheKey_of (parseFloat latB) (parseFloat lonB) in
  keyA = keyB
  ∧ (∀ w, cache w !! keyA = cache w !! keyB)
  ∧ (∀ w, fetchWeather (parseFloat latA) (parseFloat lonA) w
          = fetchWeather (parseFloat latB) (parseFloat lonB) w)
  ∧ (∀ w status payload t,
       0 ≤ t < 300000 →
       let stored := (fetchWeather_then keyA (Response status (Some payload)) w).2 in
       fetchWeather (parseFloat latB) (parseFloat lonB) (set_clock stored (clock w + t))
       = (Resolved payload, set_clock stored (clock w + t))).
Proof.
  intros Hlat Hlon. cbn zeta. rewrite Hlat, Hlon.
  repeat split.
  intros w status payload t Ht.
  apply fetchWeather_hit with
    (entry := {| data := payload; timestamp := clock w |}); cbn; [|lia].
  apply lookup_insert_eq.
Qed.

(** C8. At [DOMContentLoaded] the module refreshes all widgets once and
    registers one interval of 300000 ms; from then on every firing of that
    interval refreshes all widgets once, and nothing else does: after any
    events, the passes of [loadWeatherData] number one more than the firings
    of the interval. *)
Theorem refresh_once_per_tick (widgets : list Widget) (now : Z) (es : list (event number)) :
  let loaded := DOMContentLoaded (page widgets now) in
  passes loaded = 1%nat
  ∧ intervals loaded = [weatherUpdateInterval]
  ∧ weatherUpdateInterval = 300000
  ∧ intervals (run es loaded) = [weatherUpdateInterval]
  ∧ passes (run es loaded) = S (ticks_of 0 es)
  ∧ (∀ w, intervals w = [weatherUpdateInterval] →
       passes (handle w (Tick 0)) = S (passes w)).
Proof.
  cbn zeta.
  assert (passes (DOMContentLoaded (page widgets now)) = 1%nat
          ∧ intervals (DOMContentLoaded (page widgets now)) = [weatherUpdateInterval])
    as [Hp Hi].
  { unfold DOMContentLoaded, init, setupPeriodicUpdates.
    destruct (drain_frame (set_intervals (loadWeatherData (page widgets now))
                 (intervals (loadWeatherData (page widgets now)) ++ [weatherUpdateInterval])))
      as (_ & _ & _ & -> & ->). cbn [passes intervals set_intervals].
    by destruct (loadWeatherData_frame (page widgets now)) as (_ & _ & _ & -> & ->). }
  split; [done|]. split; [done|]. split; [done|].
  destruct (run_schedule es _ Hi) as [Hi' Hp'].
  split; [done|]. split; [by rewrite Hp', Hp|].
  intros w Hw. destruct (handle_schedule w (Tick 0)) as [_ ->]. by rewrite Hw.
Qed.

(** C9. When the fetch is not answered, or is answered with a body that is
    not JSON, the promise of [fetchWeather] is rejected and the cache is what
    it was before the call: no entry is created and none is changed. *)
Theorem failed_fetch_keeps_cache lat lon w id now r :
  r = NoResponse ∨ (∃ status, r = Response status None) →
  let w1 := set_clock (fetchWeather lat lon w).2 now in
  cache w1 = cache w
  ∧ (∃ e, fetchWeather_then (cacheKey_of lat lon) r w1 = (Rejected e, w1))
  ∧ cache (respond id r w1) = cache w
  ∧ cache (handle w1 (Respond id r)) = cache w.
Proof.
  intros Hr. cbn zeta.
  pose proof (fetchWeather_cache lat lon w) as [Hc _].
  assert (∀ key w', ∃ e, fetchWeather_then key r w' = (Rejected e, w')) as Hrej.
  { intros key w'. destruct Hr as [-> | [status ->]]; cbn; eauto. }
  assert (∀ w', cache (respond id r w') = cache w') as Hresp.
  { intros w'. unfold respond. destruct (network w' !! id) as [f|]; [|done].
    destruct (answered f); [done|].
    destruct (Hrej (cacheKey f) w') as [e ->]. done. }
  repeat split.
  - done.
  - apply Hrej.
  - by rewrite Hresp.
  - unfold handle. cbn [task].
    destruct (drain_frame (respond id r (set_clock (fetchWeather lat lon w).2 now)))
      as [-> _].
    by rewrite Hresp.
Qed.

(** C10. A response whose body is JSON is stored in the cache whatever the
    body (and whatever the status), also when [renderWeather] takes the body
    for an error marker. While the entry is in the cache and less than
    300000 ms old, [fetchWeather] for the same key resolves with that body
    and calls [fetch] not at all; a pass of [loadWeatherData] then issues no
    fetch for a widget of that key, and leaves the widget showing
    [Weather data unavailable] when the body is an error marker. *)
Theorem error_payload_cached lat lon w id f status payload :
  network w !! id = Some f → answered f = false →
  cacheKey f = cacheKey_of lat lon →
  let stored := {| data := payload; timestamp := clock w |} in
  cache (handle w (Respond id (Response status (Some payload)))) !! cacheKey_of lat lon
  = Some stored
  ∧ (∀ w', cache w' !! cacheKey_of lat lon = Some stored →
       clock w' - clock w < 300000 →
       fetchWeather lat lon w' = (Resolved payload, w')
       ∧ ∀ i element refreshed,
           microtasks w' = [] → document w' !! i = Some element →
           parseFloat (weatherLat element) = lat → parseFloat (weatherLon element) = lon →
           pass_of w' refreshed →
           (∀ id' f', network refreshed !! id' = Some f' →
              (length (network w') ≤ id')%nat → i ∉ reactions f')
           ∧ cache refreshed !! cacheKey_of lat lon = Some stored
           ∧ (error_marker payload →
                document refreshed !! i = Some (set_innerHTML element unavailable))).
Proof.
  intros Hf Hun Hkey. cbn zeta. split.
  - unfold handle. cbn [task].
    destruct (drain_frame (respond id (Response status (Some payload)) w)) as (-> & _).
    destruct (respond_fresh w id f (Response status (Some payload)) Hf Hun)
      as (_ & _ & _ & ->).
    cbn. rewrite Hkey. apply lookup_insert_eq.
  - intros w' Hstored Hage.
    assert (cached_payload w' lat lon = Some payload) as Hcached.
    { unfold cached_payload. rewrite Hstored. cbn.
      by destruct (Z.ltb_spec (clock w' - clock w) 300000); [|lia]. }
    split; [by rewrite fetchWeather_cached, Hcached|].
    intros i element refreshed Hq Hel <- <- Hpass.
    destruct (pass_of_fields w' refreshed Hpass) as (-> & -> & _ & ->).
    destruct (loadWeatherData_widget w' i element Hel)
      as (_ & Hc & _ & _ & _ & news1 & news2 & tasks1 & tasks2
          & Hnews1 & Hnews2 & _ & _ & Hshape).
    rewrite Hcached in Hshape. destruct Hshape as [Hn _].
    destruct (drain_frame (loadWeatherData w')) as (Hc' & _ & Hn' & _).
    destruct (pass_hit w' i element payload Hq Hel Hcached) as (_ & Hdoc & _).
    split; [|split].
    + intros id' f'. rewrite Hn', Hn. intros Hf' Hge.
      rewrite lookup_app_r in Hf' by done.
      assert (f' ∈ (news1 ++ news2)%list) as Hin by (by eapply list_elem_of_lookup_2).
      apply elem_of_app in Hin as [Hin|Hin].
      * by apply (proj1 (Forall_forall _ _) Hnews1).
      * by apply (proj1 (Forall_forall _ _) Hnews2).
    + by rewrite Hc', Hc.
    + intros Hmarker. rewrite Hdoc. cbn.
      by rewrite (renderWeather_marker element payload Hmarker).
Qed.

End Properties.

(** * Properties of the rest of main.js *)

(** ** Regular expressions *)

Lemma matched_eps_inv s : matched Eps s → s = [].
Proof. by inversion 1. Qed.

Lemma matched_class_inv p s : matched (Class p) s → ∃ c, s = [c] ∧ p c = true.
Proof. inversion 1; subst; eauto. Qed.

Lemma matched_seq_inv r1 r2 s :
  matched (Seq r1 r2) s → ∃ s1 s2, s = (s1 ++ s2)%list ∧ matched r1 s1 ∧ matched r2 s2.
Proof. inversion 1; subst; eauto. Qed.

Lemma matched_alt_inv r1 r2 s : matched (Alt r1 r2) s → matched r1 s ∨ matched r2 s.
Proof. inversion 1; subst; eauto. Qed.

Lemma matched_fail_inv s : ¬ matched Fail s.
Proof. inversion 1. Qed.

Lemma nullable_matched r : nullable r = true ↔ matched r [].
Proof.
  induction r as [| |p|r1 IH1 r2 IH2|r1 IH1 r2 IH2|r IH]; cbn.
  - split; [done | by intros ?%matched_fail_inv].
  - split; [constructor | done].
  - split; [done | by intros (c & ? & _)%matched_class_inv].
  - rewrite andb_true_iff, IH1, IH2. split.
    + intros [H1 H2]. apply (matched_seq r1 r2 [] [] H1 H2).
    + intros (s1 & s2 & Heq & H1 & H2)%matched_seq_inv.
      symmetry in Heq. apply app_eq_nil in Heq as [-> ->]. by split.
  - rewrite orb_true_iff, IH1, IH2. split.
    + intros [H|H]; [by apply matched_alt_l | by apply matched_alt_r].
    + apply matched_alt_inv.
  - split; [constructor | done].
Qed.

(** A repetition that matches a non-empty string matches a first non-empty
    piece of it. *)
Lemma matched_star_cons r c s :
  matched (Star r) (c :: s) →
  ∃ s1 s2, s = (s1 ++ s2)%list ∧ matched r (c :: s1) ∧ matched (Star r) s2.
Proof.
  intros H. remember (Star r) as r' eqn:Hr'. remember (c :: s) as s' eqn:Hs'.
  revert s Hs'. induction H as [| | | | | |r0 s1 s2 H1 _ H2 IH2]; try done; intros s Hs'.
  injection Hr' as ->. destruct s1 as [|c1 s1].
  - by apply IH2.
  - cbn in Hs'. injection Hs' as -> <-. by exists s1, s2.
Qed.

Lemma after_matched c r s : matched (after c r) s ↔ matched r (c :: s).
Proof.
  revert s. induction r as [| |p|r1 IH1 r2 IH2|r1 IH1 r2 IH2|r IH]; intros s; cbn.
  - split; by intros ?%matched_fail_inv.
  - split; [by intros ?%matched_fail_inv | by intros ?%matched_eps_inv].
  - destruct (p c) eqn:Hp; split.
    + intros ->%matched_eps_inv. by constructor.
    + intros (c' & [= -> ->] & _)%matched_class_inv. constructor.
    + by intros ?%matched_fail_inv.
    + intros (c' & [= -> ->] & ?)%matched_class_inv. congruence.
  - assert (matched (Seq (after c r1) r2) s → matched (Seq r1 r2) (c :: s)) as Hfirst.
    { intros (s1 & s2 & -> & H1 & H2)%matched_seq_inv.
      apply IH1 in H1. apply (matched_seq r1 r2 (c :: s1) s2 H1 H2). }
    assert (matched (Seq r1 r2) (c :: s) →
            matched (Seq (after c r1) r2) s ∨ (matched r1 [] ∧ matched r2 (c :: s))) as Hsplit.
    { intros (s1 & s2 & Heq & H1 & H2)%matched_seq_inv.
      destruct s1 as [|c1 s1]; cbn in Heq.
      - right. subst. by split.
      - left. injection Heq as <- ->. apply matched_seq; [by apply IH1 | done]. }
    destruct (nullable r1) eqn:Hnull.
    + split.
      * intros [H|H]%matched_alt_inv; [by apply Hfirst|].
        apply nullable_matched in Hnull.
        apply (matched_seq r1 r2 [] (c :: s) Hnull). by apply IH2.
      * intros [H|[_ H]]%Hsplit; [by apply matched_alt_l|].
        apply matched_alt_r. by apply IH2.
    + split; [done|]. intros [H|[H _]]%Hsplit; [done|].
      apply nullable_matched in H. congruence.
  - split.
    + intros [H|H]%matched_alt_inv;
        [apply matched_alt_l; by apply IH1 | apply matched_alt_r; by apply IH2].
    + intros [H|H]%matched_alt_inv;
        [apply matched_alt_l; by apply IH1 | apply matched_alt_r; by apply IH2].
  - split.
    + intros (s1 & s2 & -> & H1 & H2)%matched_seq_inv.
      apply IH in H1. apply (matched_star_more r (c :: s1) s2 H1 H2).
    + intros (s1 & s2 & -> & H1 & H2)%matched_star_cons.
      apply matched_seq; [by apply IH | done].
Qed.

(** The executable test decides matching. *)
Lemma test_anchored_matched r s : test_anchored r s = true ↔ matched r s.
Proof.
  revert r. induction s as [|c s IH]; intros r; cbn.
  - apply nullable_matched.
  - by rewrite IH, after_matched.
Qed.

Lemma matched_star_all (p : N → bool) s :
  matched (Star (Class p)) s ↔ Forall (λ c, p c = true) s.
Proof.
  split.
  - intros H. remember (Star (Class p)) as r eqn:Hr.
    induction H as [| | | | | |r0 s1 s2 H1 _ H2 IH2]; try done.
    injection Hr as ->. apply matched_class_inv in H1 as (c & -> & Hc).
    constructor; [done | by apply IH2].
  - induction 1 as [|c s Hc _ IH]; [constructor|].
    apply (matched_star_more (Class p) [c] s); [by constructor | done].
Qed.

Lemma matched_plus_all (p : N → bool) s :
  matched (Plus (Class p)) s ↔ s ≠ [] ∧ Forall (λ c, p c = true) s.
Proof.
  unfold Plus. split.
  - intros (s1 & s2 & -> & H1 & H2)%matched_seq_inv.
    apply matched_class_inv in H1 as (c & -> & Hc).
    apply matched_star_all in H2. split; [done | by constructor].
  - intros [Hne Hall]. destruct Hall as [|c s Hc Hall]; [done|].
    apply (matched_seq (Class p) (Star (Class p)) [c] s); [by constructor|].
    by apply matched_star_all.
Qed.

(** An unanchored class: some code unit of the string is in the class. *)
Lemma test_class (p : N → bool) s :
  test (Class p) s = true ↔ Exists (λ c, p c = true) s.
Proof.
  unfold test. rewrite test_anchored_matched. split.
  - intros (s1 & s2 & -> & _ & H2)%matched_seq_inv.
    apply matched_seq_inv in H2 as (s3 & s4 & -> & H3 & _).
    apply matched_class_inv in H3 as (c & -> & Hc).
    apply Exists_app. right. by left.
  - intros (c & Hin & Hc)%Exists_exists.
    apply list_elem_of_split in Hin as (s1 & s2 & ->).
    apply matched_seq; [apply matched_star_all; by apply Forall_true|].
    apply (matched_seq (Class p) _ [c] s2); [by constructor|].
    apply matched_star_all. by apply Forall_true.
Qed.

(** ** utils.isValidEmail *)

Lemma isValidEmail_parts email :
  isValidEmail email = true ↔
  ∃ local host tld,
    email = (local ++ 64%N :: host ++ 46%N :: tld)%list
    ∧ local ≠ [] ∧ host ≠ [] ∧ tld ≠ []
    ∧ Forall (λ c, not_space_nor_at c = true) (local ++ host ++ tld).
Proof.
  unfold isValidEmail, emailRegex. rewrite test_anchored_matched. split.
  - intros (local & s1 & -> & Hlocal & H1)%matched_seq_inv.
    apply matched_seq_inv in H1 as (at_ & s2 & -> & Hat & H2).
    apply matched_seq_inv in H2 as (host & s3 & -> & Hhost & H3).
    apply matched_seq_inv in H3 as (dot & tld & -> & Hdot & Htld).
    apply matched_class_inv in Hat as (c & -> & ->%N.eqb_eq).
    apply matched_class_inv in Hdot as (d & -> & ->%N.eqb_eq).
    apply matched_plus_all in Hlocal as [? ?], Hhost as [? ?], Htld as [? ?].
    exists local, host, tld. repeat split; try done.
    rewrite !Forall_app. by repeat split.
  - intros (local & host & tld & -> & ? & ? & ? & Hall).
    rewrite !Forall_app in Hall. destruct Hall as (? & ? & ?).
    apply matched_seq; [by apply matched_plus_all|].
    apply (matched_seq _ _ [64%N]); [by constructor|].
    apply matched_seq; [by apply matched_plus_all|].
    apply (matched_seq _ _ [46%N]); [by constructor|].
    by apply matched_plus_all.
Qed.

Lemma not_space_nor_at_spec c :
  not_space_nor_at c = true ↔ is_space c = false ∧ c ≠ 64%N.
Proof.
  unfold not_space_nor_at. rewrite negb_true_iff, orb_false_iff, N.eqb_neq. done.
Qed.

(** X1. [isValidEmail] accepts exactly the strings without white space that
    have one [@], something before it, and after it a dot with something on
    either side. *)
Theorem isValidEmail_spec email :
  isValidEmail email = true ↔
  Forall (λ c, is_space c = false) email
  ∧ ∃ local domain,
      email = (local ++ 64%N :: domain)%list
      ∧ local ≠ [] ∧ (64%N ∉ local) ∧ (64%N ∉ domain)
      ∧ ∃ host tld, domain = (host ++ 46%N :: tld)%list ∧ host ≠ [] ∧ tld ≠ [].
Proof.
  rewrite isValidEmail_parts. split.
  - intros (local & host & tld & -> & ? & ? & ? & Hall).
    assert (Forall (λ c, is_space c = false ∧ c ≠ 64%N) (local ++ host ++ tld)) as Hall'.
    { eapply Forall_impl; [exact Hall|]. intros c. apply not_space_nor_at_spec. }
    rewrite !Forall_app in Hall'. destruct Hall' as (Hl & Hh & Ht).
    split.
    + rewrite Forall_app, Forall_cons, Forall_app, Forall_cons.
      repeat split; try done; eapply Forall_impl; eauto; by intros ? [? _].
    + exists local, (host ++ 46%N :: tld)%list. repeat split; try done.
      * intros Hin. by destruct (proj1 (Forall_forall _ _) Hl _ Hin).
      * rewrite elem_of_app, elem_of_cons. intros [Hin|[Heq|Hin]]; [|done|].
        -- by destruct (proj1 (Forall_forall _ _) Hh _ Hin).
        -- by destruct (proj1 (Forall_forall _ _) Ht _ Hin).
      * by exists host, tld.
  - intros (Hspace & local & domain & -> & ? & Hl & Hd & host & tld & -> & ? & ?).
    exists local, host, tld. repeat split; try done.
    rewrite Forall_app, Forall_cons, Forall_app, Forall_cons in Hspace.
    destruct Hspace as (Hsl & _ & Hsh & _ & Hst).
    rewrite elem_of_app, elem_of_cons in Hd.
    assert (∀ l, Forall (λ c, is_space c = false) l → 64%N ∉ l →
                 Forall (λ c, not_space_nor_at c = true) l) as Hok.
    { intros l Hs Hat. apply Forall_forall. intros c Hin.
      apply not_space_nor_at_spec. split.
      - by apply (proj1 (Forall_forall _ _) Hs).
      - by intros ->. }
    rewrite !Forall_app. repeat split; apply Hok; try done; tauto.
Qed.

(** ** formValidation.checkPasswordStrength *)

Lemma test_other password :
  test (Class (λ c, negb (is_lower c || is_upper c || is_digit c))) password = true
  ↔ has_other password.
Proof.
  rewrite test_class. unfold has_other.
  split; intros H; (eapply Exists_impl; [exact H|]); intros c; cbn.
  - rewrite negb_true_iff, !orb_false_iff. tauto.
  - intros (-> & -> & ->). done.
Qed.

(** The score counts the criteria met, and the label follows the score. *)
Lemma checkPasswordStrength_counts password :
  ∃ b1 b2 b3 b4 : bool,
    (b1 = true ↔ long_enough password) ∧ (b2 = true ↔ mixed_case password)
    ∧ (b3 = true ↔ has_digit password) ∧ (b4 = true ↔ has_other password)
    ∧ score (checkPasswordStrength password)
      = (Nat.b2n b1 + Nat.b2n b2 + Nat.b2n b3 + Nat.b2n b4)%nat
    ∧ (text (checkPasswordStrength password), class (checkPasswordStrength password))
      = match score (checkPasswordStrength password) with
        | 0%nat | 1%nat => (code_units "Weak", code_units "bg-danger")
        | 2%nat => (code_units "Fair", code_units "bg-warning")
        | 3%nat => (code_units "Good", code_units "bg-info")
        | _ => (code_units "Strong", code_units "bg-success")
        end.
Proof.
  exists (6 <=? length password)%nat,
         (test (Class is_lower) password && test (Class is_upper) password),
         (test (Class is_digit) password),
         (test (Class (λ c, negb (is_lower c || is_upper c || is_digit c))) password).
  split; [apply Nat.leb_le|].
  split; [unfold mixed_case; by rewrite andb_true_iff, !test_class|].
  split; [apply test_class|]. split; [apply test_other|].
  unfold checkPasswordStrength.
  destruct (6 <=? length password)%nat,
           (test (Class is_lower) password && test (Class is_upper) password),
           (test (Class is_digit) password),
           (test (Class (λ c, negb (is_lower c || is_upper c || is_digit c))) password);
    by split.
Qed.

(** X2. The score is between 0 and 4 and fixes the label and the class of
    the bar: Weak for 0 and 1, Fair for 2, Good for 3, Strong for 4. The
    initial label, Too weak, is never returned. *)
Theorem checkPasswordStrength_label password :
  let r := checkPasswordStrength password in
  ((score r ≤ 1)%nat ∧ text r = code_units "Weak" ∧ class r = code_units "bg-danger"
   ∨ score r = 2%nat ∧ text r = code_units "Fair" ∧ class r = code_units "bg-warning"
   ∨ score r = 3%nat ∧ text r = code_units "Good" ∧ class r = code_units "bg-info"
   ∨ score r = 4%nat ∧ text r = code_units "Strong" ∧ class r = code_units "bg-success")
  ∧ text r ≠ code_units "Too weak".
Proof.
  cbn zeta.
  destruct (checkPasswordStrength_counts password)
    as (b1 & b2 & b3 & b4 & _ & _ & _ & _ & Hscore & Hlabel).
  destruct (checkPasswordStrength password) as [n t c]. cbn in *. subst n.
  destruct b1, b2, b3, b4; cbn in Hlabel; injection Hlabel as -> ->; cbn;
    (split; [|done]); auto 10.
Qed.

(** X3. A password is rated Strong exactly when it has six code units or
    more, a lowercase and an uppercase letter, a digit, and a code unit that
    is neither a letter of [a-z], [A-Z] nor a digit. *)
Theorem checkPasswordStrength_strong password :
  text (checkPasswordStrength password) = code_units "Strong"
  ↔ long_enough password ∧ mixed_case password ∧ has_digit password ∧ has_other password.
Proof.
  destruct (checkPasswordStrength_counts password)
    as (b1 & b2 & b3 & b4 & H1 & H2 & H3 & H4 & Hscore & Hlabel).
  rewrite <- H1, <- H2, <- H3, <- H4.
  destruct (checkPasswordStrength password) as [n t c]. cbn in *. subst n.
  destruct b1, b2, b3, b4; cbn in Hlabel; injection Hlabel as -> ->; cbn;
    split; try done; intros (? & ? & ? & ?); done.
Qed.

(** X4. Typing more never lowers the score: a password scores at least what
    any part of it scores. *)
Theorem checkPasswordStrength_monotone (before password after_ : jsstring) :
  (score (checkPasswordStrength password)
   ≤ score (checkPasswordStrength (before ++ password ++ after_)))%nat.
Proof.
  destruct (checkPasswordStrength_counts password)
    as (b1 & b2 & b3 & b4 & H1 & H2 & H3 & H4 & -> & _).
  destruct (checkPasswordStrength_counts (before ++ password ++ after_))
    as (c1 & c2 & c3 & c4 & G1 & G2 & G3 & G4 & -> & _).
  assert (∀ P, Exists P password → Exists P (before ++ password ++ after_)) as Hgrow.
  { intros P H. apply Exists_app. right. apply Exists_app. by left. }
  assert (b1 = true → c1 = true) as I1.
  { rewrite H1, G1. unfold long_enough. rewrite !length_app. lia. }
  assert (b2 = true → c2 = true) as I2.
  { rewrite H2, G2. intros [? ?]. split; by apply Hgrow. }
  assert (b3 = true → c3 = true) as I3 by (rewrite H3, G3; apply Hgrow).
  assert (b4 = true → c4 = true) as I4 by (rewrite H4, G4; apply Hgrow).
  destruct b1, b2, b3, b4;
    rewrite ?I1, ?I2, ?I3, ?I4 by done; destruct c1, c2, c3, c4; cbn; lia.
Qed.

(** ** imageHandler.validateFile *)

Section FileProperties.

Variable formatFileSize : N → jsstring.
Variable generateId : nat → jsstring.

(** X5. A file is valid exactly when its type is one of the four image types
    and its size is at most 16 MiB (a file of exactly 16777216 bytes passes);
    it is valid exactly when no error is listed, and the error about the type
    comes before the error about the size. *)
Theorem validateFile_spec (file : File) :
  let v := validateFile formatFileSize file in
  (valid v = true ↔ file_type file ∈ allowedImageTypes ∧ (file_size file ≤ 16777216)%N)
  ∧ (valid v = true ↔ errors v = [])
  ∧ errors v =
      ((if decide (file_type file ∈ allowedImageTypes) then []
        else [code_units "Invalid file type. Please upload JPG, PNG, GIF, or WebP images only."])
       ++ (if decide (file_size file ≤ 16777216)%N then []
           else [code_units "File size too large. Maximum size is "
                 ++ formatFileSize 16777216 ++ code_units "."]))%list.
Proof.
  cbn zeta. unfold validateFile.
  change maxFileSize with 16777216%N.
  destruct (N.ltb_spec 16777216 (file_size file)) as [Hbig|Hok];
    (destruct (decide (file_size file ≤ 16777216)%N) as [Hle|Hgt]; [|]; try lia);
    (destruct (decide (file_type file ∈ allowedImageTypes)) as [Hin|Hout];
     [rewrite bool_decide_eq_true_2 by done | rewrite bool_decide_eq_false_2 by done]);
    cbn; repeat split; try done; try tauto; try (intros [? ?]; lia).
Qed.

End FileProperties.

(** ** notifications *)

Section NotificationProperties.

Variable generateId : nat → jsstring.

Import notifications.

(** What [show] does to a page whose container exists. *)
Lemma show_spec message type duration (p : Page) children :
  container p = Some children →
  let id := generateId (drawn p) in
  ∃ toast,
    node toast = created p
    ∧ element_id toast = (code_units "notification-" ++ id)%list
    ∧ classes toast = class_tokens (code_units "alert alert-" ++ type
                        ++ code_units " alert-dismissible fade show notification-item")%list
    ∧ innerHTML toast = (toast_text_0 ++ icon type ++ toast_text_1 ++ sanitizeHtml message
                         ++ toast_text_2 ++ id ++ toast_text_3)%list
    ∧ show generateId message type duration p =
      (Normal id,
       {| now := now p;
          container := Some (children ++ [toast])%list;
          state := (state p ++ [{| notifications.id := id; message := message;
                                   notifications.type := type; timestamp := now p |}])%list;
          timers := (timers p ++ if 0 <? duration
                                 then [(now p + duration, HideLater id)] else [])%list;
          created := S (created p);
          drawn := S (drawn p) |}).
Proof.
  intros Hc. cbv zeta. eexists. split; [|split; [|split; [|split]]]; cycle 4.
  - unfold show. cbv zeta. cbn [container]. rewrite Hc.
    unfold set_state, setTimeout, set_timers, set_container.
    destruct (Z.ltb_spec 0 duration);
      cbn [now container state timers created drawn].
    + rewrite Z.max_r by lia. reflexivity.
    + rewrite app_nil_r. reflexivity.
  - reflexivity.
  - reflexivity.
  - reflexivity.
  - reflexivity.
Qed.

Lemma filter_all {A} (P : A → Prop) `{!∀ x, Decision (P x)} (l : list A) :
  Forall P l → filter P l = l.
Proof.
  induction 1 as [|x l Hx _ IH]; [done|]. by rewrite filter_cons_True, IH.
Qed.

Lemma delete_last {A} (l : list A) (x : A) : delete (length l) (l ++ [x])%list = l.
Proof. by rewrite delete_middle, app_nil_r. Qed.

(** [hide] on a page where the toast of [id] is the last child. *)
Lemma hide_last (p : Page) children toast id :
  container p = Some (children ++ [toast])%list →
  element_id toast = (code_units "notification-" ++ id)%list →
  Forall (λ t, element_id t ≠ (code_units "notification-" ++ id)%list) children →
  hide id p =
  {| now := now p;
     container := Some (children ++ [remove_show toast])%list;
     state := filter (λ n, notifications.id n ≠ id) (state p);
     timers := (timers p ++ [(now p + 150, RemoveLater (node toast))])%list;
     created := created p; drawn := drawn p |}.
Proof.
  intros Hc Hid Hfresh. unfold hide, getElementById. rewrite Hc.
  cbn [from_option Datatypes.id]. rewrite list_find_app_r by (by apply list_find_None).
  cbn [list_find fmap option_fmap option_map]. rewrite decide_True by done.
  cbn [fmap option_fmap option_map prod_map fst snd Datatypes.id].
  unfold set_state, setTimeout, set_timers, set_container.
  cbn [now container state timers created drawn].
  rewrite Z.max_r by done. f_equal. f_equal.
  rewrite <- (Nat.add_0_r (length children)) at 1.
  by rewrite Nat.add_0_l, alter_app_r.
Qed.

(** [hide] of an identifier that names nothing. *)
Lemma hide_unused (p : Page) id :
  Forall (λ t, element_id t ≠ (code_units "notification-" ++ id)%list)
    (default [] (container p)) →
  Forall (λ n, notifications.id n ≠ id) (state p) →
  hide id p = p.
Proof.
  intros Hdom Hstate. unfold hide, getElementById.
  rewrite (proj2 (list_find_None _ _)) by done.
  unfold set_state. rewrite filter_all by done. by destruct p.
Qed.

(** X6. A notification shown with a positive duration goes away by itself:
    when its timer fires after [duration] ms the toast loses the class [show]
    and leaves the state, and when the removal fires 150 ms later the
    container, the state and the timers are what they were before [show]. *)
Theorem show_then_timers message type duration (p : Page) children :
  container p = Some children →
  0 < duration →
  unused p (generateId (drawn p)) →
  let shown := (show generateId message type duration p).2 in
  let k := length (timers p) in
  let hidden := run [Elapse (now p + duration); Fire k] shown in
  let gone := run [Elapse (now p + duration + 150); Fire k] hidden in
  state hidden = state p
  ∧ (∃ toast, container hidden = Some (children ++ [toast])%list
              ∧ code_units "show" ∉ classes toast)
  ∧ container gone = Some children ∧ state gone = state p ∧ timers gone = timers p.
Proof.
  intros Hc Hd [Hdom Hstate]. rewrite Hc in Hdom. cbn [from_option Datatypes.id] in Hdom.
  cbv zeta.
  destruct (show_spec message type duration p children Hc)
    as (toast & Hnode & Hid & _ & _ & ->).
  rewrite (proj2 (Z.ltb_lt 0 duration) Hd). cbn [snd].
  set (ident := generateId (drawn p)) in *.
  unfold run. cbn [foldl step now set_now].
  rewrite (proj2 (Z.leb_le _ _)) by lia. cbn [set_now timers now container state created drawn].
  rewrite lookup_app_r by done. rewrite Nat.sub_diag. cbn [lookup list_lookup].
  rewrite Z.leb_refl. cbn [call set_timers timers now container state created drawn].
  rewrite delete_last.
  erewrite hide_last; [|reflexivity|exact Hid|].
  2:{ eapply Forall_impl; [exact Hdom|]. by intros ? [? _]. }
  cbn [state container timers now created drawn set_now set_timers].
  assert (filter (λ n, notifications.id n ≠ ident)
            (state p ++ [{| notifications.id := ident; message := message;
                            notifications.type := type; timestamp := now p |}])%list
          = state p) as Hfilter.
  { rewrite filter_app, filter_all by done. rewrite filter_cons_False by (cbn; tauto).
    by rewrite filter_nil, app_nil_r. }
  rewrite Hfilter. split; [done|]. split.
  { eexists. split; [done|]. cbn [classes remove_show]. unfold classList_remove.
    intros [Hne _]%list_elem_of_filter. done. }
  rewrite (proj2 (Z.leb_le _ _)) by lia. cbn [set_now timers now container state created drawn].
  rewrite lookup_app_r by done. rewrite Nat.sub_diag. cbn [lookup list_lookup].
  rewrite Z.leb_refl. cbn [call set_timers timers now container state created drawn].
  rewrite delete_last.
  unfold remove, set_container.
  cbn [state container timers now created drawn fmap option_fmap option_map
       set_now set_timers].
  rewrite filter_app, filter_all.
  2:{ eapply Forall_impl; [exact Hdom|]. intros ? [_ ?]. congruence. }
  rewrite filter_cons_False by (cbn [node remove_show]; intros H; by apply H).
  by rewrite filter_nil, app_nil_r.
Qed.

Lemma lookup_last {A} (l : list A) (x : A) : (l ++ [x])%list !! length l = Some x.
Proof. by rewrite lookup_app_r, Nat.sub_diag. Qed.

Lemma lookup_fst_last {A} (l : list A) (x y : A) : (l ++ [x; y])%list !! length l = Some x.
Proof. by rewrite lookup_app_r, Nat.sub_diag. Qed.

Lemma lookup_snd_last {A} (l : list A) (x y : A) :
  (l ++ [x; y])%list !! S (length l) = Some y.
Proof. rewrite lookup_app_r by lia. by rewrite Nat.sub_succ_l, Nat.sub_diag. Qed.

Lemma delete_fst_last {A} (l : list A) (x y : A) :
  delete (length l) (l ++ [x; y])%list = (l ++ [y])%list.
Proof. apply delete_middle. Qed.

Lemma delete_snd_last {A} (l : list A) (x y : A) :
  delete (S (length l)) (l ++ [x; y])%list = (l ++ [x])%list.
Proof.
  change (l ++ [x; y])%list with (l ++ [x] ++ [y])%list. rewrite app_assoc.
  replace (S (length l)) with (length (l ++ [x])%list) by (rewrite length_app; cbn; lia).
  apply delete_last.
Qed.

Lemma step_elapse (p : Page) t : now p ≤ t → step p (Elapse t) = set_now p t.
Proof. intros H. cbn [step]. by rewrite (proj2 (Z.leb_le _ _)). Qed.

Lemma step_fire (p : Page) k due callback :
  timers p !! k = Some (due, callback) → due ≤ now p →
  step p (Fire k) = call callback (set_timers p (delete k (timers p))).
Proof. intros Hk H. cbn [step]. rewrite Hk. by rewrite (proj2 (Z.leb_le _ _)). Qed.

(** The page once a notification shown at [now p] has been closed by hand
    at the time [t]. *)
Lemma show_then_hide message type duration (p : Page) children t :
  container p = Some children →
  0 < duration →
  unused p (generateId (drawn p)) →
  now p ≤ t →
  let id := generateId (drawn p) in
  ∃ toast,
    node toast = created p
    ∧ element_id toast = (code_units "notification-" ++ id)%list
    ∧ hide id (run [Elapse t] (show generateId message type duration p).2) =
      {| now := t;
         container := Some (children ++ [remove_show toast])%list;
         state := state p;
         timers := (timers p ++ [(now p + duration, HideLater id);
                                 (t + 150, RemoveLater (created p))])%list;
         created := S (created p);
         drawn := S (drawn p) |}.
Proof.
  intros Hc Hd [Hdom Hstate] Ht. rewrite Hc in Hdom. cbn [from_option Datatypes.id] in Hdom.
  cbv zeta.
  destruct (show_spec message type duration p children Hc)
    as (toast & Hnode & Hid & _ & _ & ->).
  rewrite (proj2 (Z.ltb_lt 0 duration)) by lia. cbn [snd].
  set (ident := generateId (drawn p)) in *.
  exists toast. split; [done|]. split; [done|].
  unfold run. cbn [foldl]. rewrite step_elapse by (cbn [now]; lia).
  erewrite hide_last; [|reflexivity|exact Hid|].
  2:{ eapply Forall_impl; [exact Hdom|]. by intros ? [? _]. }
  unfold set_now. cbn [state container timers now created drawn].
  rewrite filter_app, filter_all by done. rewrite filter_cons_False by (cbn; tauto).
  rewrite filter_nil, app_nil_r, <- app_assoc, Hnode. reflexivity.
Qed.

(** A removal that is due takes its element out of the container, if it is
    there. *)
Lemma fire_remove (p : Page) k due n :
  timers p !! k = Some (due, RemoveLater n) → due ≤ now p →
  step p (Fire k) =
  {| now := now p;
     container := filter (λ toast, node toast ≠ n) <$> container p;
     state := state p;
     timers := delete k (timers p);
     created := created p;
     drawn := drawn p |}.
Proof. intros Hk Hdue. by rewrite (step_fire p k due _ Hk Hdue). Qed.

(** X7. A notification closed by hand at a time [t] before its duration has
    passed, each timer firing when it is due. If the removal, 150 ms after
    the close, comes before the automatic closing, it takes the toast out of
    the container, and the automatic closing then finds nothing to do. If
    the automatic closing comes first (a close in the last 150 ms), it finds
    the toast still there and starts a second removal; the first removal
    takes the toast out and the second finds it gone. Either way the
    container, the state and the timers are in the end what they were before
    [show]. *)
Theorem hide_then_timers message type duration (p : Page) children t :
  container p = Some children →
  0 < duration →
  unused p (generateId (drawn p)) →
  now p ≤ t ≤ now p + duration →
  let id := generateId (drawn p) in
  let shown := (show generateId message type duration p).2 in
  let k := length (timers p) in
  let closed := hide id (run [Elapse t] shown) in
  state closed = state p
  ∧ timers closed = (timers p ++ [(now p + duration, HideLater id);
                                   (t + 150, RemoveLater (created p))])%list
  ∧ (t + 150 ≤ now p + duration →
     let gone := run [Elapse (t + 150); Fire (S k)] closed in
     let late := run [Elapse (now p + duration); Fire k] gone in
     container gone = Some children
     ∧ timers gone = (timers p ++ [(now p + duration, HideLater id)])%list
     ∧ container late = Some children ∧ state late = state p ∧ timers late = timers p)
  ∧ (now p + duration ≤ t + 150 →
     let again := run [Elapse (now p + duration); Fire k] closed in
     let gone := run [Elapse (t + 150); Fire k] again in
     let late := run [Elapse (now p + duration + 150); Fire k] gone in
     (∃ toast, container again = Some (children ++ [toast])%list)
     ∧ timers again = (timers p ++ [(t + 150, RemoveLater (created p));
                                     (now p + duration + 150, RemoveLater (created p))])%list
     ∧ container gone = Some children
     ∧ container late = Some children ∧ state late = state p ∧ timers late = timers p).
Proof.
  intros Hc Hd Hunused [Ht Ht']. cbv zeta.
  destruct (show_then_hide message type duration p children t Hc Hd Hunused Ht)
    as (toast & Hnode & Hid & ->).
  destruct Hunused as [Hdom Hstate]. rewrite Hc in Hdom.
  cbn [from_option Datatypes.id] in Hdom.
  set (ident := generateId (drawn p)) in *.
  assert (filter (λ x, node x ≠ created p) (children ++ [remove_show toast])%list = children)
    as Hremoved.
  { rewrite filter_app, filter_all.
    2:{ eapply Forall_impl; [exact Hdom|]. by intros ? [_ ?]. }
    rewrite filter_cons_False by (cbn [node remove_show]; intros H; by apply H).
    by rewrite filter_nil, app_nil_r. }
  assert (filter (λ x, node x ≠ created p) children = children) as Hkept.
  { apply filter_all. eapply Forall_impl; [exact Hdom|]. by intros ? [_ ?]. }
  assert (Forall (λ x, element_id x ≠ (code_units "notification-" ++ ident)%list) children)
    as Hfresh.
  { eapply Forall_impl; [exact Hdom|]. by intros ? [? _]. }
  cbn [state timers]. split; [done|]. split; [done|]. split.
  - intros Hfirst. unfold run. cbn [foldl].
    rewrite step_elapse by (cbn [now]; lia). unfold set_now.
    cbn [state container timers now created drawn].
    rewrite (fire_remove _ (S (length (timers p))) (t + 150) (created p));
      [|apply lookup_snd_last|cbn [now]; lia].
    cbn [state container timers now created drawn fmap option_fmap option_map].
    rewrite Hremoved, delete_snd_last.
    split; [done|]. split; [done|].
    rewrite step_elapse by (cbn [now]; lia). unfold set_now.
    cbn [state container timers now created drawn].
    erewrite step_fire; [|apply lookup_last|cbn [now]; lia].
    cbn [call timers]. rewrite delete_last. rewrite hide_unused; [done| |done].
    unfold set_timers. by cbn [container from_option Datatypes.id].
  - intros Hfirst. unfold run. cbn [foldl].
    rewrite step_elapse by (cbn [now]; lia). unfold set_now.
    cbn [state container timers now created drawn].
    erewrite step_fire; [|apply lookup_fst_last|cbn [now]; lia].
    cbn [call timers]. rewrite delete_fst_last. unfold set_timers.
    cbn [state container timers now created drawn].
    erewrite hide_last; [|reflexivity|exact Hid|exact Hfresh].
    cbn [state container timers now created drawn node remove_show].
    rewrite (filter_all _ (state p)) by done. rewrite <- app_assoc. cbn [app].
    rewrite Hnode.
    split; [by eexists|]. split; [done|].
    rewrite step_elapse by (cbn [now]; lia). unfold set_now.
    cbn [state container timers now created drawn].
    rewrite (fire_remove _ (length (timers p)) (t + 150) (created p));
      [|apply lookup_fst_last|cbn [now]; lia].
    cbn [state container timers now created drawn fmap option_fmap option_map].
    rewrite delete_fst_last.
    assert (filter (λ x, node x ≠ created p)
              (children ++ [remove_show (remove_show toast)])%list = children) as ->.
    { rewrite filter_app, Hkept.
      rewrite filter_cons_False by (cbn [node remove_show]; intros H; by apply H).
      by rewrite filter_nil, app_nil_r. }
    split; [done|].
    rewrite step_elapse by (cbn [now]; lia). unfold set_now.
    cbn [state container timers now created drawn].
    rewrite (fire_remove _ (length (timers p)) (now p + duration + 150) (created p));
      [|apply lookup_last|cbn [now]; lia].
    cbn [state container timers now created drawn fmap option_fmap option_map].
    by rewrite delete_last, Hkept.
Qed.

(** X8. [notifications.error] shows its message as a toast of the class
    [alert-danger], but with the icon of [info]: the type it passes on,
    [danger], is no key of the icon map, whose entry [error] is never used. *)
Theorem error_icon message duration (p : Page) children :
  container p = Some children →
  ∃ toast,
    container (error generateId message duration p).2 = Some (children ++ [toast])%list
    ∧ code_units "alert-danger" ∈ classes toast
    ∧ innerHTML toast = (toast_text_0 ++ code_units "fas fa-info-circle" ++ toast_text_1
                         ++ sanitizeHtml message ++ toast_text_2
                         ++ generateId (drawn p) ++ toast_text_3)%list.
Proof.
  intros Hc. unfold error.
  destruct (show_spec message (code_units "danger") (default 8000 duration) p children Hc)
    as (toast & _ & _ & Hclasses & Hhtml & ->).
  exists toast. split; [|split].
  - cbn [snd container]. reflexivity.
  - rewrite Hclasses. vm_compute. do 1 apply list_elem_of_further. apply list_elem_of_here.
  - rewrite Hhtml. reflexivity.
Qed.

End NotificationProperties.

(** ** utils.sanitizeHtml *)

Lemma sanitizeHtml_cons c rest :
  sanitizeHtml (c :: rest) =
  (match c with
   | 38 => code_units "&amp;"
   | 60 => code_units "&lt;"
   | 62 => code_units "&gt;"
   | 160 => code_units "&nbsp;"
   | _ => [c]
   end%N ++ sanitizeHtml rest)%list.
Proof. reflexivity. Qed.

Lemma sanitizeHtml_plain c rest :
  escaped c = false → sanitizeHtml (c :: rest) = c :: sanitizeHtml rest.
Proof.
  intros H. rewrite sanitizeHtml_cons.
  destruct c as [|q]; [done|].
  do 9 (try (destruct q as [q|q|]; try done)).
Qed.

Lemma escaped_cases c :
  escaped c = true → c = 38%N ∨ c = 60%N ∨ c = 62%N ∨ c = 160%N.
Proof.
  destruct c as [|q]; [done|].
  do 9 (try (destruct q as [q|q|]; try done)); cbn; tauto.
Qed.

Lemma sanitizeHtml_no_markup (x : N) (s : jsstring) :
  x = 60%N ∨ x = 62%N → x ∉ sanitizeHtml s.
Proof.
  intros Hx. induction s as [|c s IH]; [by intros ?%elem_of_nil|].
  destruct (escaped c) eqn:Hc.
  - apply escaped_cases in Hc as [->| [->| [->| ->]]];
      rewrite sanitizeHtml_cons; intros [H|H]%elem_of_app; try done;
      vm_compute in H; repeat (apply elem_of_cons in H as [H|H]; [by destruct Hx; subst|]);
      by apply elem_of_nil in H.
  - rewrite sanitizeHtml_plain by done.
    intros [<-|H]%elem_of_cons; [by destruct Hx; subst|]. by apply IH.
Qed.

(** X9. What [sanitizeHtml] returns holds no [<] and no [>], and tells its
    arguments apart: two strings with the same escape are the same string. *)
Theorem sanitizeHtml_spec (s : jsstring) :
  (60%N ∉ sanitizeHtml s) ∧ (62%N ∉ sanitizeHtml s)
  ∧ ∀ t, sanitizeHtml s = sanitizeHtml t → s = t.
Proof.
  split; [|split].
  - apply sanitizeHtml_no_markup. by left.
  - apply sanitizeHtml_no_markup. by right.
  - induction s as [|c s IH]; intros [|d t].
    + done.
    + intros H. exfalso. destruct (escaped d) eqn:Hd.
      * apply escaped_cases in Hd as [->| [->| [->| ->]]]; done.
      * rewrite sanitizeHtml_plain in H by done. done.
    + intros H. exfalso. destruct (escaped c) eqn:Hc.
      * apply escaped_cases in Hc as [->| [->| [->| ->]]]; done.
      * rewrite sanitizeHtml_plain in H by done. done.
    + intros H. destruct (escaped c) eqn:Hc, (escaped d) eqn:Hd.
      * apply escaped_cases in Hc as [->| [->| [->| ->]]];
        apply escaped_cases in Hd as [->| [->| [->| ->]]];
          rewrite !sanitizeHtml_cons in H; vm_compute code_units in H;
          cbn [app] in H; try done; f_equal; apply IH; congruence.
      * apply escaped_cases in Hc as [->| [->| [->| ->]]];
          rewrite sanitizeHtml_cons, (sanitizeHtml_plain d) in H by done;
          vm_compute code_units in H; cbn [app] in H;
          injection H as <- _; done.
      * apply escaped_cases in Hd as [->| [->| [->| ->]]];
          rewrite (sanitizeHtml_cons _ t), (sanitizeHtml_plain c) in H by done;
          vm_compute code_units in H; cbn [app] in H;
          injection H as -> _; done.
      * rewrite !sanitizeHtml_plain in H by done.
        injection H as -> H. f_equal. by apply IH.
Qed.

Section GalleryProperties.

Variable formatFileSize : N → jsstring.
Variable generateId : nat → jsstring.

Lemma foldl_sort_file (files : list File) validFiles errorLines :
  foldl (sort_file formatFileSize) (validFiles, errorLines) files =
  ((validFiles ++ filter (accepted formatFileSize) files)%list,
   (errorLines ++ (rejection formatFileSize <$> filter (λ f, ¬ accepted formatFileSize f) files))%list).
Proof.
  revert validFiles errorLines.
  induction files as [|file files IH]; intros validFiles errorLines.
  - cbn. by rewrite !app_nil_r.
  - cbn [foldl]. unfold sort_file at 2.
    destruct (valid (validateFile formatFileSize file)) eqn:Hv.
    + rewrite IH, filter_cons_True, filter_cons_False by (unfold accepted; congruence).
      by rewrite <- app_assoc.
    + rewrite IH, filter_cons_False, filter_cons_True by (unfold accepted; congruence).
      by rewrite fmap_cons, <- app_assoc.
Qed.

Lemma show_notices message type duration (p : notifications.Page) children :
  notifications.container p = Some children →
  ∃ id p',
    notifications.show generateId message type duration p = (Normal id, p')
    ∧ (∃ children', notifications.container p' = Some children')
    ∧ notices p' = (notices p ++ [(type, message)])%list.
Proof.
  intros Hc. destruct (show_spec generateId message type duration p children Hc)
    as (toast & _ & _ & _ & _ & ->).
  eexists _, _. split; [reflexivity|]. split.
  - eexists. reflexivity.
  - unfold notices. cbn [notifications.state]. by rewrite fmap_app.
Qed.

(** X10. [handleFileSelection] on a page that has its notification
    container makes these calls, in this order: [notifications.error], once,
    with a line for each rejected file, if a file is rejected; then
    [showPhotoPreview], once, with the files that pass [validateFile] in
    their order, and [notifications.success] with their count, if a file
    passes. The notifications module records the messages under the types
    [danger] and [success]. *)
Theorem handleFileSelection_spec (files : list File) (g : Gallery) children :
  notifications.container (toasts g) = Some children →
  let good := filter (accepted formatFileSize) files in
  let bad := filter (λ f, ¬ accepted formatFileSize f) files in
  let rejected :=
    (code_units "Some files were rejected:" ++ [10%N]
     ++ join [10%N] (rejection formatFileSize <$> bad))%list in
  let selected :=
    (decimal (length good) ++ code_units " photo(s) selected successfully")%list in
  ∃ g',
    handleFileSelection formatFileSize generateId files g = (Normal tt, g')
    ∧ actions g' =
        (actions g
         ++ (if decide (bad = []) then [] else [NotifyError rejected])
         ++ (if decide (good = []) then [] else [ShowPreview good; NotifySuccess selected]))%list
    ∧ notices (toasts g') =
        (notices (toasts g)
         ++ (if decide (bad = []) then [] else [(code_units "danger", rejected)])
         ++ (if decide (good = []) then [] else [(code_units "success", selected)]))%list.
Proof.
  intros Hc. cbv zeta. unfold handleFileSelection.
  rewrite foldl_sort_file, !app_nil_l.
  generalize (filter (accepted formatFileSize) files)
             (filter (λ f, ¬ accepted formatFileSize f) files).
  intros good bad. destruct bad as [|b bad], good as [|f good].
  - cbn. eexists. split; [reflexivity|]. cbn. by rewrite !app_nil_r.
  - cbn [fmap list_fmap length Nat.ltb Nat.leb].
    unfold showPhotoPreview, notify, notifications.success.
    cbn [toasts actions default from_option Datatypes.id].
    edestruct (show_notices (decimal (length (f :: good))
                             ++ code_units " photo(s) selected successfully")%list
                 (code_units "success") 5000 (toasts g) children Hc)
      as (id & p' & Hshow & _ & Hn).
    cbn [length] in Hshow. rewrite Hshow. eexists. split; [reflexivity|].
    cbn [actions toasts fst snd].
    rewrite (decide_True (P:=@nil File = [])), (decide_False (P:=f :: good = [])) by done.
    split; [by rewrite <- app_assoc|]. rewrite Hn. done.
  - cbn [fmap list_fmap length Nat.ltb Nat.leb].
    unfold notify, notifications.error. cbn [default from_option Datatypes.id].
    edestruct (show_notices (code_units "Some files were rejected:" ++ [10%N]
                             ++ join [10%N] (rejection formatFileSize <$> b :: bad))%list
                 (code_units "danger") 8000 (toasts g) children Hc)
      as (id & p' & Hshow & _ & Hn).
    cbn [fmap list_fmap] in Hshow. rewrite Hshow. eexists. split; [reflexivity|].
    cbn [actions toasts fst snd].
    rewrite (decide_True (P:=@nil File = [])), (decide_False (P:=b :: bad = [])) by done.
    split; [by rewrite app_nil_r|]. rewrite Hn. by rewrite app_nil_r.
  - cbn [fmap list_fmap length Nat.ltb Nat.leb].
    unfold notify, notifications.error. cbn [default from_option Datatypes.id].
    edestruct (show_notices (code_units "Some files were rejected:" ++ [10%N]
                             ++ join [10%N] (rejection formatFileSize <$> b :: bad))%list
                 (code_units "danger") 8000 (toasts g) children Hc)
      as (id & p' & Hshow & [children' Hc'] & Hn).
    cbn [fmap list_fmap] in Hshow. rewrite Hshow.
    unfold showPhotoPreview, notifications.success.
    cbn [toasts actions fst snd default from_option Datatypes.id].
    edestruct (show_notices (decimal (length (f :: good))
                             ++ code_units " photo(s) selected successfully")%list
                 (code_units "success") 5000 p' children' Hc')
      as (id2 & p2 & Hshow2 & _ & Hn2).
    cbn [length] in Hshow2. rewrite Hshow2. eexists. split; [reflexivity|].
    cbn [actions toasts fst snd].
    rewrite !decide_False by done. split; [by rewrite <- !app_assoc|]. rewrite Hn2, Hn.
    by rewrite <- app_assoc.
Qed.

End GalleryProperties.

(** ** utils.getCookie *)

Lemma split_where_none (p : N → bool) (s : jsstring) :
  Forall (λ c, p c = false) s → split_where p s = [s].
Proof.
  induction 1 as [|c s Hc _ IH]; [done|]. cbn. by rewrite Hc, IH.
Qed.

Lemma split_where_app (p : N → bool) (s : jsstring) c rest :
  Forall (λ c, p c = false) s → p c = true →
  split_where p (s ++ c :: rest) = s :: split_where p rest.
Proof.
  intros Hs Hc. induction Hs as [|d s Hd _ IH]; cbn.
  - by rewrite Hc.
  - by rewrite Hd, IH.
Qed.

Lemma trimStart_id (s : jsstring) :
  (∀ c, head s = Some c → is_space c = false) → trimStart s = s.
Proof.
  destruct s as [|c s]; [done|]. intros H. cbn. by rewrite (H c).
Qed.

Lemma trim_id (s : jsstring) :
  (∀ c, head s = Some c → is_space c = false) →
  (∀ c, last s = Some c → is_space c = false) →
  trim s = s.
Proof.
  intros Hh Hl. unfold trim. rewrite (trimStart_id s) by done.
  rewrite trimStart_id; [by rewrite reverse_involutive|].
  intros c Hc. apply Hl. by rewrite <- head_reverse.
Qed.

Lemma trim_space (s : jsstring) :
  (∀ c, head s = Some c → is_space c = false) →
  (∀ c, last s = Some c → is_space c = false) →
  s ≠ [] →
  trim (32%N :: s) = s.
Proof.
  intros Hh Hl Hs. unfold trim. cbn [trimStart].
  change (is_space 32) with true. cbn match.
  fold (trim s). by apply trim_id.
Qed.

Lemma split_join (text : jsstring) (texts : list jsstring) :
  Forall (Forall (λ c, c ≠ 59%N)) (text :: texts) →
  split_where (N.eqb 59) (join (code_units "; ") (text :: texts)) =
  text :: ((λ t, 32%N :: t) <$> texts).
Proof.
  revert text. induction texts as [|text' texts IH]; intros text Hall.
  - cbn [join fmap list_fmap]. apply split_where_none.
    apply Forall_inv in Hall. eapply Forall_impl; [exact Hall|].
    intros c Hc. by apply N.eqb_neq.
  - change (join (code_units "; ") (text :: text' :: texts))
      with (text ++ 59%N :: 32%N :: join (code_units "; ") (text' :: texts))%list.
    rewrite split_where_app; [| |done].
    + f_equal. cbn [split_where]. change (59 =? 32)%N with false. cbn match.
      rewrite IH by (by apply Forall_inv_tail in Hall). done.
    + apply Forall_inv in Hall. eapply Forall_impl; [exact Hall|].
      intros c Hc. by apply N.eqb_neq.
Qed.

Lemma take_name (name key value : jsstring) :
  (61%N ∉ name) → (61%N ∉ key) →
  take (length name + 1) (key ++ [61%N] ++ value)%list = (name ++ [61%N])%list
  ↔ key = name.
Proof.
  intros Hname Hkey. split.
  - revert key Hkey. induction name as [|n name IH]; intros [|k key] Hkey H.
    + done.
    + cbn in H. injection H as ->. exfalso. apply Hkey. left.
    + cbn in H. injection H as <- _. exfalso. apply Hname. left.
    + cbn in H. injection H as -> H. f_equal. apply IH.
      * intros ?. apply Hname. by right.
      * intros ?. apply Hkey. by right.
      * exact H.
  - intros ->. clear. induction name as [|n name IH]; [done|]. cbn. f_equal. exact IH.
Qed.

Lemma drop_name (name value : jsstring) :
  drop (length name + 1) (name ++ [61%N] ++ value)%list = value.
Proof. induction name as [|n name IH]; [done|]. exact IH. Qed.

Section CookieProperties.

Variable decodeURIComponent : jsstring → option jsstring.

Lemma scan_cookies_spec (name : jsstring) pieces pairs :
  (61%N ∉ name) →
  Forall2 (λ piece entry, trim piece = pair_text entry) pieces pairs →
  Forall (λ entry, 61%N ∉ entry.1) pairs →
  scan_cookies decodeURIComponent name pieces =
  match list_find (λ entry, entry.1 = name) pairs with
  | Some (_, entry) =>
      match decodeURIComponent entry.2 with
      | Some value => Cookie value
      | None => CookieError
      end
  | None => NoCookie
  end.
Proof.
  intros Hname Hpieces. induction Hpieces as [|piece entry pieces pairs Hp _ IH]; intros Hkeys.
  - done.
  - cbn [scan_cookies list_find]. rewrite Hp. unfold pair_text.
    change (code_units "=") with [61%N].
    apply Forall_cons in Hkeys as [Hkey Hkeys].
    destruct entry as [key value]. cbn [fst snd] in *.
    destruct (decide (key = name)) as [->|Hne].
    + rewrite decide_True by (by apply take_name).
      rewrite drop_name. done.
    + rewrite decide_False by (by rewrite take_name).
      rewrite IH by done. by destruct (list_find _ pairs) as [[? ?]|].
Qed.

(** X11. [getCookie] on the text of a list of cookies gives the value, once
    decoded, of the first cookie of that name, and [null] when there is none;
    the name is one without an equals sign. *)
Theorem getCookie_spec (name : jsstring) (pairs : list (jsstring * jsstring)) :
  (61%N ∉ name) →
  Forall cookie_pair pairs →
  getCookie decodeURIComponent (cookie_text pairs) name =
  match list_find (λ entry, entry.1 = name) pairs with
  | Some (_, entry) =>
      match decodeURIComponent entry.2 with
      | Some value => Cookie value
      | None => CookieError
      end
  | None => NoCookie
  end.
Proof.
  intros Hname Hpairs. destruct pairs as [|entry pairs]; [done|].
  unfold getCookie, cookie_text. rewrite fmap_cons.
  destruct (join _ _) as [|c text] eqn:Htext.
  { exfalso. destruct pairs; cbn in Htext.
    - unfold pair_text in Htext. by destruct (entry.1).
    - unfold pair_text in Htext. by destruct (entry.1). }
  rewrite <- Htext. rewrite split_join.
  2:{ rewrite <- fmap_cons. apply Forall_fmap. eapply Forall_impl; [exact Hpairs|].
      by intros ? [? _]. }
  apply scan_cookies_spec; [done| |].
  - apply Forall_cons in Hpairs as [(_ & _ & Hhead & Hlast) Hrest]. constructor.
    + by apply trim_id.
    + clear -Hrest. induction Hrest as [|other pairs (_ & _ & Hhead & Hlast) _ IH];
        [constructor|].
      rewrite !fmap_cons. constructor; [|exact IH].
      apply trim_space; [done|done|]. unfold pair_text. by destruct (other.1).
  - eapply Forall_impl; [exact Hpairs|]. by intros ? (_ & ? & _).
Qed.

End CookieProperties.

(** ** utils.throttle *)

Section ThrottleProperties.

Context {A : Type}.
Variable throws : A → bool.
Variable limit : Z.

Import throttle.







End ThrottleProperties.

(** ** utils.debounce *)

Section DebounceProperties.

Context {A : Type}.
Variable wait : Z.

Import debounce.

Lemma settled_calls_called (h : list (@entry A)) t a : settled_calls wait h → settled_calls wait (h ++ [Called t a]).
Proof.
  intros Hh i t1 a1 Hi.
  destruct (decide (i < length h)%nat) as [Hlt|Hge].
  - rewrite lookup_app_l in Hi by done.
    destruct (Hh i t1 a1 Hi) as (j & t0 & -> & Hj & Hle).
    exists j, t0. rewrite lookup_app_l by lia. done.
  - apply lookup_lt_Some in Hi as Hlen. rewrite length_app in Hlen. cbn in Hlen.
    assert (i = length h) as -> by lia.
    rewrite lookup_app_r, Nat.sub_diag in Hi by lia. done.
Qed.

Lemma settled_calls_invoked (h : list (@entry A)) t0 t a :
  settled_calls wait h → last h = Some (Called t0 a) → t0 + wait ≤ t →
  settled_calls wait (h ++ [Invoked t a]).
Proof.
  intros Hh Hlast Hle i t1 a1 Hi.
  destruct (decide (i < length h)%nat) as [Hlt|Hge].
  - rewrite lookup_app_l in Hi by done.
    destruct (Hh i t1 a1 Hi) as (j & t' & -> & Hj & Hle').
    exists j, t'. rewrite lookup_app_l by lia. done.
  - apply lookup_lt_Some in Hi as Hlen. rewrite length_app in Hlen. cbn in Hlen.
    assert (i = length h) as -> by lia.
    rewrite lookup_app_r, Nat.sub_diag in Hi by lia. injection Hi as <- <-.
    rewrite last_lookup in Hlast.
    destruct (length h) as [|n] eqn:Hn; [by destruct h|].
    exists n, t0. cbn in Hlast. rewrite lookup_app_l by lia. done.
Qed.

Lemma clearTimeout_pending (s : @Debounced A) :
  quiet wait s → clearTimeout (timeout s) (timers s) = [].
Proof.
  intros [_ [->|(h & t0 & a & -> & -> & _)]].
  - unfold clearTimeout. by destruct (timeout s).
  - cbn. by rewrite decide_False by (cbn; tauto).
Qed.

Lemma debounce_call (s : @Debounced A) (args : A) :
  quiet wait s → quiet wait (call wait args s).
Proof.
  intros Hs. pose proof (clearTimeout_pending s Hs) as Hclear. destruct Hs as [Hh _].
  split; cbn [call history timers timeout].
  - by apply settled_calls_called.
  - right. exists (next s), (now s), args. rewrite Hclear, last_snoc. done.
Qed.

Lemma debounce_step (s : @Debounced A) (e : @event A) :
  quiet wait s → quiet wait (step wait s e).
Proof.
  intros Hs. destruct e as [args|t|k]; cbn [step].
  - by apply debounce_call.
  - by destruct (_ <=? _).
  - destruct (timers s !! k) as [[h [due args]]|] eqn:Hk; [|done].
    destruct (Z.leb_spec due (now s)) as [Hle|Hgt]; [|done].
    destruct Hs as [Hh [Ht|(h' & t0 & a & Ht & Hto & Hlast)]]; rewrite Ht in Hk; [done|].
    destruct k as [|k]; [|done]. injection Hk as <- <- <-.
    split; cbn [later history timers timeout now].
    + eapply settled_calls_invoked; [done|done|lia].
    + left. rewrite Ht. cbn. unfold clearTimeout. by destruct (timeout s).
Qed.

Lemma debounce_run (es : list (@event A)) (s : @Debounced A) :
  quiet wait s → quiet wait (run wait es s).
Proof.
  revert s. induction es as [|e es IH]; intros s Hs; [done|].
  apply IH. by apply debounce_step.
Qed.

(** X13. A debounced function calls [func] only after [wait] ms without a
    call, and on the arguments of the last call: in the order of the calls,
    a call of [func] comes right after the call of the debounced function it
    takes its arguments from, made at least [wait] ms before. At most one
    timer is pending, and a call left alone for [wait] ms does reach [func]. *)
Theorem debounce_spec (es : list (@event A)) (t : Z) :
  let s := run wait es (initial t) in
  (∀ i t1 a, history s !! i = Some (Invoked t1 a) →
     ∃ j t0, i = S j ∧ history s !! j = Some (Called t0 a) ∧ t0 + wait ≤ t1)
  ∧ (length (timers s) ≤ 1)%nat
  ∧ ∀ a, last (history (run wait [Call a; Elapse (now s + Z.max 0 wait); Fire 0] s))
         = Some (Invoked (now s + Z.max 0 wait) a).
Proof.
  cbv zeta.
  assert (quiet wait (run wait es (initial t))) as Hs.
  { apply debounce_run. split; [by intros ? ? ? ?|by left]. }
  split; [exact (proj1 Hs)|]. split.
  - destruct Hs as [_ [->|(h & t0 & a & -> & _)]]; cbn; lia.
  - intros a. generalize dependent (run wait es (initial t)). intros s Hs.
    pose proof (clearTimeout_pending s Hs) as Hclear.
    assert (step wait s (Call a) =
            {| now := now s; timeout := Some (next s);
               timers := [(next s, (now s + Z.max 0 wait, a))];
               next := S (next s);
               history := (history s ++ [Called (now s) a])%list |}) as Hcall.
    { cbn [step]. unfold call. by rewrite Hclear. }
    unfold run. cbn [foldl]. rewrite Hcall. cbn [step now].
    rewrite (proj2 (Z.leb_le _ _)) by lia. cbn [timers lookup list_lookup now].
    rewrite Z.leb_refl. cbn [later history]. by rewrite last_snoc.
Qed.

End DebounceProperties.

(** ** Class lists *)

Lemma elem_of_classList_add (tokens : list jsstring) (token t : jsstring) :
  t ∈ classList_add tokens token ↔ t = token ∨ t ∈ tokens.
Proof.
  unfold classList_add. destruct (decide (token ∈ tokens)) as [Hin|Hout].
  - split; [by right|]. by intros [->|?].
  - rewrite elem_of_app, list_elem_of_singleton. tauto.
Qed.

Lemma elem_of_classList_remove (tokens : list jsstring) (token t : jsstring) :
  t ∈ classList_remove tokens token ↔ t ≠ token ∧ t ∈ tokens.
Proof. unfold classList_remove. by rewrite list_elem_of_filter. Qed.

Lemma elem_of_classList_toggle (tokens : list jsstring) (token t : jsstring) (force : bool) :
  t ∈ classList_toggle tokens token force ↔
  if force then t = token ∨ t ∈ tokens else t ≠ token ∧ t ∈ tokens.
Proof.
  destruct force; [apply elem_of_classList_add|apply elem_of_classList_remove].
Qed.

(** ** formValidation: the listener of [input] on an email field *)

(** What the listener makes of an email field, by cases. *)
Lemma email_input_cases (value : jsstring) (tokens : list jsstring) (message : jsstring) :
  email_input {| input_type := code_units "email"; input_value := value;
                 classList := tokens; customValidity := message |} =
  {| input_type := code_units "email"; input_value := value;
     classList :=
       match value with
       | [] => classList_remove (classList_remove tokens (code_units "is-valid"))
                 (code_units "is-invalid")
       | _ => classList_toggle
                (classList_toggle tokens (code_units "is-valid") (isValidEmail value))
                (code_units "is-invalid") (negb (isValidEmail value))
       end;
     customValidity :=
       if isValidEmail value then []
       else code_units "Please enter a valid email address" |}.
Proof.
  unfold email_input. cbn [input_type]. rewrite decide_True by done.
  unfold set_classList, setCustomValidity.
  cbn [input_value classList customValidity input_type].
  by destruct value.
Qed.

(** X14. After the listener has run on a field of the type [email], the field
    has the class [is-valid] exactly when its value is a valid address, and
    the class [is-invalid] exactly when its value is not empty and not valid;
    its other classes are as before. The field is reported invalid to the
    form whenever its value is not a valid address, also when it is empty. *)
Theorem email_input_spec (value : jsstring) (tokens : list jsstring) (message : jsstring) :
  let target := email_input {| input_type := code_units "email"; input_value := value;
                               classList := tokens; customValidity := message |} in
  (code_units "is-valid" ∈ classList target ↔ isValidEmail value = true)
  ∧ (code_units "is-invalid" ∈ classList target ↔ value ≠ [] ∧ isValidEmail value = false)
  ∧ (∀ token, token ≠ code_units "is-valid" → token ≠ code_units "is-invalid" →
       token ∈ classList target ↔ token ∈ tokens)
  ∧ (customValidity target = [] ↔ isValidEmail value = true)
  ∧ input_value target = value.
Proof.
  cbv zeta. rewrite email_input_cases. cbn [classList customValidity input_value].
  assert (code_units "is-valid" ≠ code_units "is-invalid") as Hne by (by vm_compute).
  destruct value as [|c value].
  - change (isValidEmail []) with false. cbn match.
    split; [|split; [|split; [|split]]].
    + rewrite !elem_of_classList_remove. split; [tauto|done].
    + rewrite !elem_of_classList_remove. split; [tauto|]. by intros [? _].
    + intros token ? ?. rewrite !elem_of_classList_remove. tauto.
    + done.
    + done.
  - destruct (isValidEmail (c :: value)); cbn [negb];
      (split; [|split; [|split; [|split]]]).
    + rewrite !elem_of_classList_toggle. split; [done|]. intros _. split; [done|by left].
    + rewrite !elem_of_classList_toggle. split; [tauto|]. by intros [_ ?].
    + intros token ? ?. rewrite !elem_of_classList_toggle. tauto.
    + done.
    + done.
    + rewrite !elem_of_classList_toggle. split; [|done].
      intros [?|[? _]]; [by destruct Hne|done].
    + rewrite !elem_of_classList_toggle. split; [done|]. intros _. by left.
    + intros token ? ?. rewrite !elem_of_classList_toggle. tauto.
    + done.
    + done.
Qed.

(** ** formValidation: the listener of [submit] *)

Section SubmissionProperties.

Import submission.

Lemma spaced_times_snoc (times : list Z) (t : Z) :
  (∀ i t1 t2, times !! i = Some t1 → times !! S i = Some t2 → t1 + 5000 ≤ t2) →
  (∀ t0, last times = Some t0 → t0 + 5000 ≤ t) →
  ∀ i t1 t2, (times ++ [t])%list !! i = Some t1 → (times ++ [t])%list !! S i = Some t2 →
             t1 + 5000 ≤ t2.
Proof.
  intros Hs Hlast i t1 t2 H1 H2.
  destruct (decide (S i < length times)%nat) as [Hlt|Hge].
  - rewrite lookup_app_l in H1, H2 by lia. by eapply Hs.
  - assert (S i = length times) as Hi.
    { apply lookup_lt_Some in H2. rewrite length_app in H2. cbn in H2. lia. }
    rewrite lookup_app_l in H1 by lia.
    rewrite Hi, lookup_app_r, Nat.sub_diag in H2 by lia. injection H2 as <-.
    apply (Hlast t1). rewrite last_lookup, <- Hi. exact H1.
Qed.

Lemma submit_step_invariant (p : Page) (e : event) :
  guarded p → guarded (step p e).
Proof.
  intros ([btn Hbtn] & Hs & Hstate). destruct e as [|t|k]; cbn [step].
  - unfold submit. destruct (decide (submitting (form p) = _)) as [Hl|Hl].
    { by split; [exists btn|]. }
    destruct Hstate as [[Hl' _]|(_ & Ht & Hlast)]; [done|].
    rewrite Hbtn. split; [|split]; cbn [form submitBtn accepted timers now].
    + by eexists.
    + by apply spaced_times_snoc.
    + left. split; [done|]. eexists _, _. rewrite last_snoc, Ht. done.
  - destruct (Z.leb_spec (now p) t) as [Hle|Hgt]; [|by split; [exists btn|]].
    split; [by exists btn|]. split; [done|]. cbn [now timers accepted form].
    destruct Hstate as [Hstate|(Hl & Ht & Hlast)]; [by left|].
    right. split; [done|]. split; [done|]. intros t0 H0. specialize (Hlast t0 H0). lia.
  - destruct (timers p !! k) as [[due originalText]|] eqn:Hk; [|by split; [exists btn|]].
    destruct (Z.leb_spec due (now p)) as [Hle|Hgt]; [|by split; [exists btn|]].
    split; [|split]; cbn [now timers accepted form reset submitBtn].
    + rewrite Hbtn. by eexists.
    + done.
    + right. destruct Hstate as [(_ & t & orig & Hlast & Ht)|(_ & Ht & _)];
        rewrite Ht in Hk; [|done].
      destruct k as [|k]; [|done]. injection Hk as <- <-.
      split; [by intros [=]|]. rewrite Ht. split; [done|].
      intros t0. rewrite Hlast. intros [= <-]. lia.
Qed.

(** X15. A form with a submit button: two submissions that the listener lets
    through are at least 5000 ms apart, whatever the events in between, and
    the listener never has more than one timer pending. *)
Theorem submit_spacing (es : list event) (t : Z) (button : Button) :
  let p := run es (fresh t (Some button)) in
  (∀ i t1 t2, accepted p !! i = Some t1 → accepted p !! S i = Some t2 → t1 + 5000 ≤ t2)
  ∧ (length (timers p) ≤ 1)%nat.
Proof.
  cbv zeta.
  assert (guarded (run es (fresh t (Some button)))) as (_ & Hs & Hstate).
  { assert (guarded (fresh t (Some button))) as H0.
    { split; [by eexists|]. split; [by intros ? ? ? ?|].
      right. split; [by intros [=]|]. split; [done|]. by intros ? ?. }
    revert H0. generalize (fresh t (Some button)). unfold run.
    induction es as [|e es IH]; intros p Hp; [done|].
    apply IH. by apply submit_step_invariant. }
  split; [exact Hs|].
  destruct Hstate as [(_ & ? & ? & _ & ->)|(_ & -> & _)]; cbn; lia.
Qed.

Lemma stuck_step (t : Z) (p : Page) (e : event) : stuck t p → stuck t (step p e).
Proof.
  intros (Hl & Hb & Ht & Ha). destruct e as [|t'|k]; cbn [step].
  - unfold submit. by rewrite decide_True by exact Hl.
  - by destruct (_ <=? _).
  - by rewrite Ht.
Qed.

(** X16. A form without a submit button is submitted once: after the first
    submission nothing resets [dataset.submitting], and the listener stops
    every later one, however long after. *)
Theorem submit_without_button (es : list event) (t : Z) :
  let p := run (Submit :: es) (fresh t None) in
  accepted p = [t] ∧ submitting (form p) = Some (code_units "true") ∧ timers p = [].
Proof.
  cbv zeta.
  assert (stuck t (run (Submit :: es) (fresh t None))) as (Hl & _ & Ht & Ha); [|done].
  unfold run. cbn [foldl].
  assert (stuck t (step (fresh t None) Submit)) as H0 by done.
  revert H0. generalize (step (fresh t None) Submit).
  induction es as [|e es IH]; intros p Hp; [done|].
  apply IH. by apply stuck_step.
Qed.


End SubmissionProperties.

(** ** The widgets and the cache over time *)

Section WeatherProperties.

Context {number : Type} `{!JSNumber number}.

Implicit Types (w : World number).

Lemma handle_cache w e :
  dom (cache w) ⊆ dom (cache (handle w e))
  ∧ (∀ k entry, cache (handle w e) !! k = Some entry →
       cache w !! k = Some entry
       ∨ ∃ id status, e = Respond id (Response status (Some (data entry))))
  ∧ ((∀ id r, e ≠ Respond id r) → cache (handle w e) = cache w).
Proof.
  unfold handle. destruct (drain_frame (task e w)) as (-> & _).
  destruct e as [now|id r|timer]; cbn [task].
  - split; [done|]. split; [by left|done].
  - split; [|split].
    + unfold respond. destruct (network w !! id) as [f|]; [|done].
      destruct (answered f); [done|].
      destruct r as [|status [payload|]]; cbn; try done.
      rewrite dom_insert. apply union_subseteq_r.
    + intros k entry. unfold respond. destruct (network w !! id) as [f|]; [|by left].
      destruct (answered f); [by left|].
      destruct r as [|status [payload|]]; cbn; try (by left).
      destruct (decide (cacheKey f = k)) as [->|Hne].
      * rewrite lookup_insert_eq. intros [= <-]. right. by exists id, status.
      * rewrite lookup_insert_ne by done. by left.
    + intros Hother. by destruct (Hother id r).
  - destruct (intervals w !! timer); [|by split; [|split; [left|]]].
    destruct (loadWeatherData_frame w) as (_ & -> & _). split; [done|]. split; [by left|done].
Qed.

(** X18. Whatever happens after the page has loaded (time passing, answers
    of the network, firings of the interval), the cache keeps every key it
    has: an entry is overwritten, never evicted. Every entry it holds is one
    it held before or holds the JSON body of an answer received since; time
    passing and firings of the interval write nothing to the cache. *)
Theorem cache_only_grows (es : list (event number)) w :
  dom (cache w) ⊆ dom (cache (run es w))
  ∧ (∀ k entry, cache (run es w) !! k = Some entry →
       cache w !! k = Some entry
       ∨ ∃ id status, Respond id (Response status (Some (data entry))) ∈ es)
  ∧ (Forall (λ e, ∀ id r, e ≠ Respond id r) es → cache (run es w) = cache w).
Proof.
  revert w. induction es as [|e es IH]; intros w.
  { split; [done|]. split; [by left|done]. }
  cbn [run foldl]. fold (run es (handle w e)).
  destruct (IH (handle w e)) as (Hdom & Hfrom & Hsame).
  destruct (handle_cache w e) as (Hdom' & Hfrom' & Hsame').
  split; [|split].
  - etrans; [exact Hdom'|exact Hdom].
  - intros k entry Hentry. destruct (Hfrom k entry Hentry) as [Hold|(id & status & Hin)].
    + destruct (Hfrom' k entry Hold) as [Holder|(id & status & ->)]; [by left|].
      right. exists id, status. apply list_elem_of_here.
    + right. exists id, status. by apply list_elem_of_further.
  - intros [He Hes]%Forall_cons. by rewrite (Hsame Hes), (Hsame' He).
Qed.

Lemma load_widget_frame w j :
  document (load_widget w j) = document w ∧ cache (load_widget w j) = cache w
  ∧ clock (load_widget w j) = clock w.
Proof.
  destruct (load_widget_other (S j) w j) as (? & ? & ? & _); [lia|done].
Qed.

Lemma unserved_frame w w' element :
  cache w' = cache w → clock w' = clock w → unserved w' element ↔ unserved w element.
Proof. intros Hc Ht. unfold unserved, cached_payload. by rewrite Hc, Ht. Qed.

Lemma load_widgets_urls (before elements : list Widget) w :
  document w = (before ++ elements)%list →
  url <$> network (foldl load_widget w (seq (length before) (length elements))) =
  ((url <$> network w)
   ++ ((λ element, url_of (parseFloat (weatherLat element)) (parseFloat (weatherLon element)))
       <$> filter (unserved w) elements))%list.
Proof.
  revert before w. induction elements as [|element elements IH]; intros before w Hd.
  - cbn. by rewrite app_nil_r.
  - cbn [length seq foldl].
    assert (document w !! length before = Some element) as Hel.
    { rewrite Hd. by rewrite list_lookup_middle. }
    destruct (load_widget_frame w (length before)) as (Hd' & Hc' & Ht').
    replace (S (length before)) with (length (before ++ [element])%list)
      by (rewrite length_app; cbn; lia).
    rewrite IH by (by rewrite Hd', Hd, <- app_assoc).
    rewrite (list_filter_iff (unserved (load_widget w (length before))) (unserved w))
      by (intros ?; by apply unserved_frame).
    rewrite (load_widget_element w _ element Hel).
    destruct (decide (unserved w element)) as [Hu|Hs].
    + rewrite filter_cons_True by done. unfold unserved in Hu. rewrite Hu.
      cbn [network set_network]. rewrite fmap_app, fmap_cons. cbn [url fmap list_fmap].
      by rewrite <- app_assoc.
    + rewrite filter_cons_False by done. unfold unserved in Hs.
      destruct (cached_payload w _ _); [done|]. by destruct Hs.
Qed.

(** X19. One pass of [loadWeatherData] requests, in document order, the URL
    of every widget that the cache cannot serve at that time, and nothing
    else: widgets with the same coordinates are requested once each, not
    once together. *)
Theorem loadWeatherData_requests w :
  url <$> network (loadWeatherData w) =
  ((url <$> network w)
   ++ ((λ element, url_of (parseFloat (weatherLat element)) (parseFloat (weatherLon element)))
       <$> filter (unserved w) (document w)))%list.
Proof.
  unfold loadWeatherData.
  exact (load_widgets_urls [] (document w) (set_passes w (S (passes w))) eq_refl).
Qed.

End WeatherProperties.

(** * Examples *)

(** C1 at a page whose cache holds a payload 100 ms old: the call and a later
    call, 299099 ms after the payload was stored, are served from the cache. *)
Lemma fetchWeather_cache_hit_witness :
  cache cached_world !! cacheKey_of (Some 27) (Some 85) = Some cached_entry
  ∧ clock cached_world - timestamp cached_entry < 300000
  ∧ fetchWeather (Some 27) (Some 85) cached_world = (Resolved clear_sky, cached_world)
  ∧ fetchWeather (Some 27) (Some 85) (set_clock cached_world 300899)
    = (Resolved clear_sky, set_clock cached_world 300899).
Proof.
  assert (cache cached_world !! cacheKey_of (Some 27) (Some 85) = Some cached_entry) as H1
    by (vm_compute; reflexivity).
  assert (clock cached_world - timestamp cached_entry < 300000) as H2
    by (vm_compute; reflexivity).
  destruct (fetchWeather_cache_hit (Some 27) (Some 85) cached_world cached_entry H1 H2)
    as (Hfirst & Hsecond & _).
  split; [exact H1|]. split; [exact H2|]. split; [exact Hfirst|].
  rewrite Hfirst in Hsecond. apply Hsecond. vm_compute; reflexivity.
Defined.

(** C2, as stated, at a response with status 500 and a JSON body: the promise
    of [fetchWeather] is fulfilled, the body is cached, and the widget is
    rendered from it. *)
Lemma status_500_is_not_rejected :
  let w := DOMContentLoaded (page [origin] 1000) in
  let r := Response 500 (Some clear_sky) in
  network w = [{| url := "/api/weather/0/0"; cacheKey := "0,0";
                  reactions := [0%nat]; answered := false |}]
  ∧ (fetchWeather_then "0,0" r w).1 = Fulfilled clear_sky
  ∧ cache (handle w (Respond 0 r)) !! "0,0" = Some {| data := clear_sky; timestamp := 1000 |}
  ∧ document (handle w (Respond 0 r)) !! 0%nat
    = Some (settle_widget origin (Fulfilled clear_sky))
  ∧ innerHTML (settle_widget origin (Fulfilled clear_sky)) ≠ unavailable.
Proof.
  cbv zeta. split; [vm_compute; reflexivity|]. split; [reflexivity|].
  split; [vm_compute; reflexivity|]. split; [vm_compute; reflexivity|].
  vm_compute. discriminate.
Qed.

(** C2 as amended, at a page with one widget whose fetch is answered with
    status 500 and a body that is not JSON. *)
Lemma fetchWeather_rejects_witness :
  let w := DOMContentLoaded (page [origin] 1000) in
  (∃ e, (fetchWeather_then "0,0" (Response 500 None) w).1 = Rejected e)
  ∧ document (run [Respond 0 (Response 500 None)] w) !! 0%nat
    = Some (set_innerHTML origin unavailable).
Proof.
  cbv zeta.
  destruct (fetchWeather_rejects (number := option Z) "0,0" (Response 500 None)
              (DOMContentLoaded (page [origin] 1000))) as (Hiff & _ & Hcatch).
  split.
  - apply Hiff. right. by exists 500.
  - apply (Hcatch _ 0%nat 0%nat).
    + right. by exists 500.
    + vm_compute; reflexivity.
    + split; [vm_compute; reflexivity|]. split.
      * eexists. split; [vm_compute; reflexivity|]. split; reflexivity.
      * intros [|[|id']] f' Hf' Hun Hin; [reflexivity| |]; vm_compute in Hf'; discriminate.
    + vm_compute; reflexivity.
    + repeat constructor.
    + reflexivity.
Defined.

(** C3 at the page five minutes after its payload was cached: the call
    issues one fetch, and the answer overwrites the entry. *)
Lemma cache_expiry_witness :
  cache stale_world !! cacheKey_of (Some 27) (Some 85) = Some cached_entry
  ∧ 300000 ≤ clock stale_world - timestamp cached_entry
  ∧ (fetchWeather (Some 27) (Some 85) stale_world).1 = Awaiting 0
  ∧ url <$> network (fetchWeather (Some 27) (Some 85) stale_world).2
    = ["/api/weather/27/85"]
  ∧ cache (respond 0 (Response 200 (Some error_body))
             (set_clock (fetchWeather (Some 27) (Some 85) stale_world).2 301000))
    = <["27,85" := {| data := error_body; timestamp := 301000 |}]> (cache stale_world).
Proof.
  assert (cache stale_world !! cacheKey_of (Some 27) (Some 85) = Some cached_entry) as H1
    by (vm_compute; reflexivity).
  assert (300000 ≤ clock stale_world - timestamp cached_entry) as H2
    by (vm_compute; discriminate).
  destruct (cache_expiry (Some 27) (Some 85) stale_world cached_entry 301000 200 error_body
              H1 H2) as (_ & Hmiss & Hsent & _ & Hstored & _).
  split; [exact H1|]. split; [exact H2|]. split; [exact Hmiss|].
  split; [by rewrite Hsent | exact Hstored].
Defined.

(** C4, as stated, at the payload [{}]: the call throws. *)
Lemma renderWeather_throws_on_empty_object :
  renderWeather kathmandu (Obj [] : value (option Z)) = Throw TypeError.
Proof. reflexivity. Qed.

(** C4 as amended, at [null], at a payload of the documented shape, at
    [{}], whose exception the chain of the widget catches, and at
    [{"current": 5}], which is rendered with [undefined] in every field. *)
Lemma renderWeather_outcomes_witness :
  renderWeather kathmandu (Null : value (option Z)) = Normal (set_innerHTML kathmandu unavailable)
  ∧ renderWeather kathmandu clear_sky = Normal (set_innerHTML kathmandu clear_sky_markup)
  ∧ clear_sky_markup ≠ unavailable
  ∧ renderWeather kathmandu (Obj [] : value (option Z)) = Throw TypeError
  ∧ document (drain (set_microtasks (page [kathmandu] 1000)
                       [(0%nat, Fulfilled (Obj [] : value (option Z)))])) !! 0%nat
    = Some (set_innerHTML kathmandu unavailable)
  ∧ renderWeather kathmandu bare_current = Normal (set_innerHTML kathmandu undefined_markup)
  ∧ undefined_markup ≠ unavailable.
Proof.
  assert (∀ properties : list (string * value (option Z)),
            GetOwnProperty properties "error" = None → ¬ error_marker (Obj properties))
    as Hclear.
  { intros properties Hnone [Hfalsy|(err & [= <-] & Htruthy)]; [done|].
    by rewrite Hnone in Htruthy. }
  assert (markup_of clear_sky = clear_sky_markup) as Hsky by (vm_compute; reflexivity).
  split; [|split; [|split; [|split; [|split; [|split]]]]].
  - apply (renderWeather_outcomes kathmandu (Null : value (option Z))). by left.
  - rewrite <- Hsky. apply (renderWeather_outcomes kathmandu clear_sky). reflexivity.
  - rewrite <- Hsky. apply (renderWeather_outcomes kathmandu clear_sky).
  - destruct (renderWeather_outcomes kathmandu (Obj [] : value (option Z)))
      as (_ & _ & _ & _ & Hthrows & _).
    apply Hthrows; [by apply Hclear | by left].
  - destruct (renderWeather_outcomes kathmandu (Obj [] : value (option Z)))
      as (_ & _ & _ & _ & Hthrows & _ & Hcatch).
    destruct (Hcatch (page [kathmandu] 1000) 0%nat eq_refl eq_refl) as (_ & _ & Hthrow).
    apply (Hthrow TypeError). apply Hthrows; [by apply Hclear | by left].
  - destruct (renderWeather_outcomes kathmandu bare_current)
      as (_ & _ & _ & _ & _ & Hundefined & _).
    apply Hundefined; [by apply Hclear | right; left; by exists (Some 5) | reflexivity].
  - destruct (renderWeather_outcomes kathmandu bare_current)
      as (_ & _ & Hnot & _ & _ & Hundefined & _).
    destruct Hundefined as [<- _];
      [by apply Hclear | right; left; by exists (Some 5) | reflexivity | exact Hnot].
Defined.



(** The scenario of C6, run: the failing widget answered first, or last. *)
Example one_failure_among_two :
  let w' := DOMContentLoaded two_widgets in
  let failure := Respond 0 (Response 500 None) in
  let success := Respond 1 (Response 200 (Some clear_sky)) in
  (innerHTML <$> document (run [failure; success] w')) = [unavailable; clear_sky_markup]
  ∧ document (run [success; failure] w') = document (run [failure; success] w')
  ∧ console (run [failure; success] w') = [SyntaxError].
Proof. cbv zeta. split; [|split]; vm_compute; reflexivity. Qed.

(** Two widgets of one coordinate: both miss, two fetches leave, and the
    entry of the key is the body of the answer that came last. *)
Example last_answer_wins :
  let w := DOMContentLoaded (page [origin; origin] 1000) in
  let w' := run [Respond 0 (Response 200 (Some clear_sky));
                 Respond 1 (Response 200 (Some error_body))] w in
  url <$> network w = ["/api/weather/0/0"; "/api/weather/0/0"]
  ∧ cache w' !! "0,0" = Some {| data := error_body; timestamp := 1000 |}.
Proof. cbv zeta. split; vm_compute; reflexivity. Qed.

(** C7 at two spellings of the latitude 27. *)
Lemma cache_key_stable_witness :
  parseFloat "27" = parseFloat "027"
  ∧ cacheKey_of (parseFloat "27") (parseFloat "85")
    = cacheKey_of (parseFloat "027") (parseFloat "85")
  ∧ cacheKey_of (parseFloat "027") (parseFloat "85") = "27,85".
Proof.
  assert (parseFloat "27" = parseFloat "027") as H1 by reflexivity.
  split; [exact H1|]. split; [|reflexivity].
  exact (proj1 (cache_key_stable "27" "85" "027" "85" H1 eq_refl)).
Defined.

(** C8 at a page with two widgets: one pass at load, one more at the firing
    of the interval, none at an answer of the network. *)
Lemma refresh_once_per_tick_witness :
  passes (DOMContentLoaded two_widgets) = 1%nat
  ∧ passes (run [Respond 0 NoResponse; Tick 0; Elapse 5000] (DOMContentLoaded two_widgets))
    = 2%nat.
Proof.
  destruct (refresh_once_per_tick (number := option Z) [origin; kathmandu] 1000
              [Respond 0 NoResponse; Tick 0; Elapse 5000]) as (H1 & _ & _ & _ & H2 & _).
  split; [exact H1 | exact H2].
Defined.

(** C9 at the page whose cached payload is stale: the fetch is issued and
    answered with a body that is not JSON; the stale entry stays. *)
Lemma failed_fetch_keeps_cache_witness :
  let w1 := set_clock (fetchWeather (Some 27) (Some 85) stale_world).2 301000 in
  answered <$> network w1 !! 0%nat = Some false
  ∧ cache (handle w1 (Respond 0 (Response 502 None))) = cache stale_world
  ∧ cache stale_world !! "27,85" = Some cached_entry.
Proof.
  cbv zeta. split; [reflexivity|]. split; [|vm_compute; reflexivity].
  apply (failed_fetch_keeps_cache (Some 27) (Some 85) stale_world 0 301000 (Response 502 None)).
  right. by exists 502.
Defined.

(** C10 at a page with one widget whose fetch is answered with
    [{ "error": true }]: the body is cached, and a pass made 299 s later
    calls [fetch] not at all and shows the fallback. *)
Lemma error_payload_cached_witness :
  let w := DOMContentLoaded (page [origin] 1000) in
  let w' := set_clock (handle w (Respond 0 (Response 200 (Some error_body)))) 300999 in
  cache w' !! "0,0" = Some {| data := error_body; timestamp := 1000 |}
  ∧ fetchWeather (Some 0) (Some 0) w' = (Resolved error_body, w')
  ∧ length (network (handle w' (Tick 0))) = length (network w)
  ∧ document (handle w' (Tick 0)) !! 0%nat = Some (set_innerHTML origin unavailable).
Proof.
  cbv zeta.
  set (w := DOMContentLoaded (page [origin] 1000)).
  set (w' := set_clock (handle w (Respond 0 (Response 200 (Some error_body)))) 300999).
  destruct (error_payload_cached (Some 0) (Some 0) w 0
              {| url := "/api/weather/0/0"; cacheKey := "0,0";
                 reactions := [0%nat]; answered := false |} 200 error_body)
    as [Hstored Hlater]; [reflexivity..|].
  assert (cache w' !! "0,0" = Some {| data := error_body; timestamp := 1000 |}) as Hcache
    by exact Hstored.
  destruct (Hlater w' Hcache) as [Hhit Hpass]; [vm_compute; reflexivity|].
  destruct (Hpass 0%nat (set_innerHTML origin unavailable) (handle w' (Tick 0)))
    as (_ & _ & Hshown); [vm_compute; reflexivity..| by right |].
  split; [exact Hcache|]. split; [exact Hhit|]. split; [vm_compute; reflexivity|].
  apply Hshown. right. exists (Bool true). by split.
Defined.

(** X10 at a selection of two photographs around a file of another type
    that is also too large: the rejection is reported, then the two
    photographs are previewed and counted. *)
Lemma handleFileSelection_spec_witness :
  notifications.container (toasts empty_gallery) = Some []
  ∧ ∃ g', handleFileSelection sixteen_MB nth_id [photo; scan; photo] empty_gallery
          = (Normal tt, g')
    ∧ actions g' =
        [NotifyError
           (code_units "Some files were rejected:" ++ [10%N]
            ++ code_units "map.tiff: Invalid file type. Please upload JPG, PNG, GIF, or WebP images only., File size too large. Maximum size is 16 MB.")%list;
         ShowPreview [photo; photo];
         NotifySuccess (code_units "2 photo(s) selected successfully")]
    ∧ (fst <$> notices (toasts g')) = [code_units "danger"; code_units "success"].
Proof.
  split; [reflexivity|].
  destruct (handleFileSelection_spec sixteen_MB nth_id [photo; scan; photo] empty_gallery []
              eq_refl) as (g' & Hrun & Hactions & Hnotices).
  exists g'. split; [exact Hrun|]. split.
  - rewrite Hactions. vm_compute. reflexivity.
  - rewrite Hnotices. vm_compute. reflexivity.
Defined.

(** X6 at a notification shown for 5000 ms on the page with its empty
    container. *)
Lemma show_then_timers_witness :
  let shown := (notifications.show nth_id (code_units "Saved") (code_units "success") 5000
                  ready_page).2 in
  let hidden := notifications.run [notifications.Elapse 5000; notifications.Fire 0] shown in
  let gone := notifications.run [notifications.Elapse 5150; notifications.Fire 0] hidden in
  unused ready_page (nth_id 0)
  ∧ length (default [] (notifications.container shown)) = 1%nat
  ∧ notifications.container gone = Some []
  ∧ notifications.state gone = []
  ∧ notifications.timers gone = [].
Proof.
  cbv zeta.
  assert (unused ready_page (nth_id 0)) as Hunused by (split; constructor).
  destruct (show_then_timers nth_id (code_units "Saved") (code_units "success") 5000
              ready_page [] eq_refl eq_refl Hunused) as (_ & _ & Hcontainer & Hstate & Htimers).
  split; [exact Hunused|]. split; [reflexivity|].
  split; [exact Hcontainer|]. split; [exact Hstate|exact Htimers].
Defined.

(** X7 at a notification of 5000 ms closed by hand after 1000 ms, and after
    4900 ms: the removals are then due at 5050 and at 5150. *)
Lemma hide_then_timers_witness :
  let shown := (notifications.show nth_id (code_units "Saved") (code_units "success") 5000
                  ready_page).2 in
  let early := notifications.hide (nth_id 0) (notifications.run [notifications.Elapse 1000] shown) in
  let early_gone := notifications.run [notifications.Elapse 1150; notifications.Fire 1] early in
  let early_late := notifications.run [notifications.Elapse 5000; notifications.Fire 0] early_gone in
  let closed := notifications.hide (nth_id 0) (notifications.run [notifications.Elapse 4900] shown) in
  let again := notifications.run [notifications.Elapse 5000; notifications.Fire 0] closed in
  let gone := notifications.run [notifications.Elapse 5050; notifications.Fire 0] again in
  let late := notifications.run [notifications.Elapse 5150; notifications.Fire 0] gone in
  unused ready_page (nth_id 0)
  ∧ notifications.container early_gone = Some []
  ∧ notifications.timers early_gone = [(5000, notifications.HideLater (nth_id 0))]
  ∧ notifications.container early_late = Some []
  ∧ notifications.timers early_late = []
  ∧ length (default [] (notifications.container again)) = 1%nat
  ∧ notifications.timers again
    = [(5050, notifications.RemoveLater 0); (5150, notifications.RemoveLater 0)]
  ∧ notifications.container gone = Some []
  ∧ notifications.container late = Some []
  ∧ notifications.state late = []
  ∧ notifications.timers late = [].
Proof.
  cbv zeta.
  assert (unused ready_page (nth_id 0)) as Hunused by (split; constructor).
  destruct (hide_then_timers nth_id (code_units "Saved") (code_units "success") 5000
              ready_page [] 1000 eq_refl eq_refl Hunused ltac:(done))
    as (_ & _ & Hearly & _).
  destruct (Hearly ltac:(done)) as (Hgone1 & Htimers1 & Hlate1 & _ & Hend1).
  destruct (hide_then_timers nth_id (code_units "Saved") (code_units "success") 5000
              ready_page [] 4900 eq_refl eq_refl Hunused ltac:(done))
    as (_ & _ & _ & Hlast).
  destruct (Hlast ltac:(done)) as ([toast Hagain] & Htimers & Hgone & Hlate & Hstate & Hend).
  split; [exact Hunused|]. split; [exact Hgone1|]. split; [exact Htimers1|].
  split; [exact Hlate1|]. split; [exact Hend1|].
  split; [exact (f_equal (λ c, length (default [] c)) Hagain)|].
  split; [exact Htimers|]. split; [exact Hgone|].
  split; [exact Hlate|]. split; [exact Hstate|exact Hend].
Defined.

(** X8 at the first notification of the page. *)
Lemma error_icon_witness :
  notifications.container ready_page = Some []
  ∧ ∃ toast,
      notifications.container
        (notifications.error nth_id (code_units "No connection") None ready_page).2
      = Some [toast]
      ∧ code_units "alert-danger" ∈ notifications.classes toast
      ∧ notifications.innerHTML toast
        = (toast_text_0 ++ code_units "fas fa-info-circle" ++ toast_text_1
           ++ code_units "No connection" ++ toast_text_2 ++ nth_id 0 ++ toast_text_3)%list.
Proof.
  split; [reflexivity|].
  destruct (error_icon nth_id (code_units "No connection") None ready_page [] eq_refl)
    as (toast & Hcontainer & Hclass & Hhtml).
  exists toast. split; [exact Hcontainer|]. split; [exact Hclass|].
  rewrite Hhtml. reflexivity.
Defined.

(** X11 at [csrftoken=k3y; theme=dark]. *)
Lemma getCookie_spec_witness :
  cookie_text two_cookies = code_units "csrftoken=k3y; theme=dark"
  ∧ getCookie no_escape (cookie_text two_cookies) (code_units "theme")
    = Cookie (code_units "dark")
  ∧ getCookie no_escape (cookie_text two_cookies) (code_units "session") = NoCookie.
Proof.
  assert (Forall cookie_pair two_cookies) as Hpairs.
  { repeat constructor; try (intros c [= <-]; reflexivity);
      try (apply (bool_decide_unpack _); vm_compute; exact I). }
  split; [vm_compute; reflexivity|]. split.
  - rewrite (getCookie_spec no_escape (code_units "theme") two_cookies).
    + vm_compute. reflexivity.
    + apply (bool_decide_unpack _). vm_compute. exact I.
    + exact Hpairs.
  - rewrite (getCookie_spec no_escape (code_units "session") two_cookies).
    + vm_compute. reflexivity.
    + apply (bool_decide_unpack _). vm_compute. exact I.
    + exact Hpairs.
Defined.
